(** * The nginx ingress integrator charm: a shallow embedding of [src/charm.py]

    The charm keeps one Kubernetes [Service] and one [Ingress] in step with
    two sources: the operator's configuration and the data a related
    application publishes on the [ingress] relation.  This development
    embeds the handlers, the resolver properties, the resource builders and
    the create-or-patch flows of [CharmK8SIngressCharm], and proves the
    properties stated in the specification about them. *)

From stdpp Require Import base option list strings pretty gmap.
From Stdlib Require Import ZArith Ascii String Sorted Lia.

Local Open Scope string_scope.
Local Open Scope Z_scope.

(** ** Python values

    The values that flow through the charm are [None], [str] and [int]:
    relation data bags hold strings, [dict.get] yields [None] for a missing
    key, and Juju options are strings or integers.  Strings are sequences of
    8-bit characters; the string operations below are the ASCII fragment of
    their Python counterparts. *)

Inductive pyval : Type :=
| PNone
| PStr (s : string)
| PInt (z : Z).

#[global] Instance pyval_eq_dec : EqDecision pyval.
Proof. solve_decision. Defined.

(** Truth value testing, as used by [or], [and] and [if]. *)
Definition truthy (v : pyval) : bool :=
  match v with
  | PNone => false
  | PStr s => negb (String.eqb s "")
  | PInt z => negb (z =? 0)
  end.

(** [a or b] where [b] cannot raise. *)
Definition py_or (a b : pyval) : pyval := if truthy a then a else b.

(** [str(v)], which is also what ["{}".format(v)] and ["%s" % v] insert. *)
Definition py_str (v : pyval) : string :=
  match v with
  | PNone => "None"
  | PStr s => s
  | PInt z => pretty z
  end.

(** The exceptions the embedded code can raise. *)
Inductive exn : Type :=
| KeyError (key : string)
| TypeError
| ValueError
| AttributeError
| ApiException (code : Z).

Inductive Res (A : Type) : Type :=
| Ok (a : A)
| Err (e : exn).
Arguments Ok {A} a.
Arguments Err {A} e.

#[global] Instance Res_ret : MRet Res := fun A a => Ok a.
#[global] Instance Res_bind : MBind Res := fun A B f m =>
  match m with
  | Ok a => f a
  | Err e => Err e
  end.
#[global] Instance Res_fmap : FMap Res := fun A B f m =>
  match m with
  | Ok a => Ok (f a)
  | Err e => Err e
  end.

(** *** [int(...)] *)

(** The blanks [int] skips around an ASCII literal: tab to carriage return,
    and the space. *)
Definition is_space (c : ascii) : bool :=
  let n := N_of_ascii c in
  ((9 <=? n) && (n <=? 13) || (n =? 32))%N.

Definition is_digit (c : ascii) : bool :=
  let n := N_of_ascii c in ((48 <=? n) && (n <=? 57))%N.

Definition digit_val (c : ascii) : Z := Z.of_N (N_of_ascii c) - 48.

Fixpoint lstrip (s : string) : string :=
  match s with
  | String c r => if is_space c then lstrip r else s
  | EmptyString => EmptyString
  end.

Fixpoint rstrip (s : string) : string :=
  match s with
  | String c r =>
      match rstrip r with
      | EmptyString => if is_space c then EmptyString else String c EmptyString
      | r' => String c r'
      end
  | EmptyString => EmptyString
  end.

(** Decimal digits, single underscores allowed between two digits. *)
Fixpoint digits_value (acc : Z) (after_digit : bool) (s : string) : option Z :=
  match s with
  | EmptyString => if after_digit then Some acc else None
  | String c r =>
      if is_digit c then digits_value (10 * acc + digit_val c) true r
      else if Ascii.eqb c "_" then
             if after_digit then digits_value acc false r else None
           else None
  end.

Definition int_of_string (s : string) : option Z :=
  match rstrip (lstrip s) with
  | String "-" r => Z.opp <$> digits_value 0 false r
  | String "+" r => digits_value 0 false r
  | r => digits_value 0 false r
  end.

(** [int(v)]: [TypeError] on [None], [ValueError] on a string that is not a
    decimal literal. *)
Definition py_int (v : pyval) : Res pyval :=
  match v with
  | PNone => Err TypeError
  | PInt z => Ok (PInt z)
  | PStr s =>
      match int_of_string s with
      | Some z => Ok (PInt z)
      | None => Err ValueError
      end
  end.

(** *** [str.upper], [str.join], [sorted] *)

Definition ascii_upper (c : ascii) : ascii :=
  let n := N_of_ascii c in
  if ((97 <=? n) && (n <=? 122))%N then ascii_of_N (n - 32) else c.

Fixpoint upper (s : string) : string :=
  match s with
  | String c r => String (ascii_upper c) (upper r)
  | EmptyString => EmptyString
  end.

(** [v.upper()] exists on strings only. *)
Definition py_upper (v : pyval) : Res string :=
  match v with
  | PStr s => Ok (upper s)
  | _ => Err AttributeError
  end.

(** [sep.join(l)] for a list of strings. *)
Fixpoint join (sep : string) (l : list string) : string :=
  match l with
  | [] => ""
  | [x] => x
  | x :: r => x +:+ sep +:+ join sep r
  end.

(** [sep.join(l)] when the elements are arbitrary values: anything but a
    string is a [TypeError]. *)
Fixpoint as_strings (l : list pyval) : Res (list string) :=
  match l with
  | [] => Ok []
  | PStr s :: r => r' ← as_strings r; Ok (s :: r')
  | _ :: _ => Err TypeError
  end.

Definition py_join (sep : string) (l : list pyval) : Res string :=
  join sep <$> as_strings l.

(** [sorted(l)] on strings: insertion into an ascending list under the
    lexicographic order of the characters. *)
Fixpoint sorted_insert (x : string) (l : list string) : list string :=
  match l with
  | [] => [x]
  | y :: r => if String.leb x y then x :: l else y :: sorted_insert x r
  end.

Definition sorted (l : list string) : list string :=
  foldr sorted_insert [] l.

(** [d.get(k)]: [None] when the key is missing. *)
Definition dict_get (d : gmap string pyval) (k : string) : pyval :=
  default PNone (d !! k).

(** ** Module constants *)

Definition REQUIRED_INGRESS_RELATION_FIELDS : gset string :=
  {[ "service-hostname"; "service-name"; "service-port" ]}.

Definition OPTIONAL_INGRESS_RELATION_FIELDS : gset string :=
  {[ "max-body-size"; "service-namespace"; "session-cookie-max-age";
     "tls-secret-name" ]}.

(** ** Kubernetes objects, as far as the charm fills them in *)

Record V1ObjectMeta := {
  meta_name : string;
  meta_annotations : option (gmap string string) }.

Record V1ServicePort := {
  port_name : string;
  port : pyval;
  target_port : pyval }.

Record V1ServiceSpec := {
  selector : gmap string pyval;
  ports : list V1ServicePort;
  cluster_ip : pyval }.

Record V1Service := {
  svc_api_version : string;
  svc_kind : string;
  svc_metadata : V1ObjectMeta;
  svc_spec : V1ServiceSpec }.

Record IngressBackend := {
  service_port : pyval;
  service_name : string }.

Record HTTPIngressPath := {
  path : string;
  backend : IngressBackend }.

Record IngressRule := {
  host : pyval;
  http_paths : list HTTPIngressPath }.

Record IngressTLS := {
  tls_hosts : list pyval;
  secret_name : pyval }.

Record IngressSpec := {
  rules : list IngressRule;
  tls : option IngressTLS }.

Record Ingress := {
  ing_api_version : string;
  ing_kind : string;
  ing_metadata : V1ObjectMeta;
  ing_spec : IngressSpec }.

(** ** The charm and what surrounds it *)

Inductive Status : Type :=
| UnknownStatus
| ActiveStatus (msg : string)
| BlockedStatus (msg : string).

(** One relation as the framework presents it: [relation.name],
    [relation.id] and the remote application's bag
    [relation.data[relation.app]]. *)
Record Relation := {
  rel_name : string;
  rel_id : Z;
  rel_data : gmap string string }.

(** The charm object: [self.config], [self.unit.is_leader()],
    [self.model.name], [self.model.relations.values()], the stored
    [ingress_relation_data], the [_authed] flag and [self.unit.status]. *)
Record Charm := {
  config : gmap string pyval;
  is_leader : bool;
  model_name : string;
  relations : list (list Relation);
  ingress_relation_data : gmap string pyval;
  authed : bool;
  status : Status }.

(** What [__init__] leaves in the stored state the first time. *)
Definition stored_default : gmap string pyval := ∅.

(** Everything the handlers do outside the charm object, in order. *)
Inductive Effect : Type :=
| FixLp1892255
| WriteKubeConfig (text : pyval)
| LoadKubeConfig
| LoadInclusterConfig
| ListNamespacedService (ns : pyval)
| PatchNamespacedService (name : string) (ns : pyval) (body : V1Service)
| CreateNamespacedService (ns : pyval) (body : V1Service)
| ListNamespacedIngress (ns : pyval)
| PatchNamespacedIngress (name : string) (ns : pyval) (body : Ingress)
| CreateNamespacedIngress (ns : pyval) (body : Ingress).

Definition is_create (e : Effect) : bool :=
  match e with
  | CreateNamespacedService _ _ | CreateNamespacedIngress _ _ => true
  | _ => false
  end.

Definition is_patch (e : Effect) : bool :=
  match e with
  | PatchNamespacedService _ _ _ | PatchNamespacedIngress _ _ _ => true
  | _ => false
  end.

Definition is_mutation (e : Effect) : bool := is_create e || is_patch e.

(** The cluster behind the API client: the namespaced objects of the two
    kinds, and the address the cluster gives a service it creates. *)
Record Cluster := {
  services : list (pyval * V1Service);
  ingresses : list (pyval * Ingress);
  assign_ip : pyval -> string -> pyval }.

Inductive Level : Type := ERROR | WARNING | INFO.

Record World := {
  charm : Charm;
  cluster : Cluster;
  effects : list Effect;
  log : list (Level * string) }.

Definition set_charm (c : Charm) (w : World) : World :=
  {| charm := c; cluster := cluster w; effects := effects w; log := log w |}.

Definition set_status (s : Status) (c : Charm) : Charm :=
  {| config := config c; is_leader := is_leader c; model_name := model_name c;
     relations := relations c; ingress_relation_data := ingress_relation_data c;
     authed := authed c; status := s |}.

Definition set_stored (d : gmap string pyval) (c : Charm) : Charm :=
  {| config := config c; is_leader := is_leader c; model_name := model_name c;
     relations := relations c; ingress_relation_data := d;
     authed := authed c; status := status c |}.

Definition set_authed (b : bool) (c : Charm) : Charm :=
  {| config := config c; is_leader := is_leader c; model_name := model_name c;
     relations := relations c; ingress_relation_data := ingress_relation_data c;
     authed := b; status := status c |}.

(** *** Handlers as state transformers that may raise

    A raised exception keeps the changes made before it. *)
Definition M (A : Type) : Type := World -> Res A * World.

#[global] Instance M_ret : MRet M := fun A a w => (Ok a, w).
#[global] Instance M_bind : MBind M := fun A B f m w =>
  match m w with
  | (Ok a, w') => f a w'
  | (Err e, w') => (Err e, w')
  end.

(** Reading a property of the charm object. *)
Definition prop {A} (p : Charm -> Res A) : M A := fun w => (p (charm w), w).

Definition update_charm (f : Charm -> Charm) : M unit :=
  fun w => (Ok tt, set_charm (f (charm w)) w).

Definition emit (e : Effect) : M unit := fun w =>
  (Ok tt, {| charm := charm w; cluster := cluster w;
             effects := effects w ++ [e]; log := log w |}).

Definition logger (l : Level) (msg : string) : M unit := fun w =>
  (Ok tt, {| charm := charm w; cluster := cluster w;
             effects := effects w; log := log w ++ [(l, msg)] |}).

Definition set_cluster (k : Cluster) : M unit := fun w =>
  (Ok tt, {| charm := charm w; cluster := k;
             effects := effects w; log := log w |}).

Definition raise {A} (e : exn) : M A := fun w => (Err e, w).

(** Reading the world, and running a computation chosen from it. *)
Definition gets {A} (f : World -> A) : M A := fun w => (Ok (f w), w).

Definition try_pure {A} (r : Res A) : M A := fun w => (r, w).

(** ** The resolver properties *)

(** [self.config[k]] *)
Definition config_get (c : Charm) (k : string) : Res pyval :=
  match config c !! k with
  | Some v => Ok v
  | None => Err (KeyError k)
  end.

(** [self._stored.ingress_relation_data.get(k)] *)
Definition stored_get (c : Charm) (k : string) : pyval :=
  dict_get (ingress_relation_data c) k.

Definition _service_name (c : Charm) : Res pyval :=
  v ← config_get c "service-name";
  Ok (py_or v (stored_get c "service-name")).

Definition _k8s_service_name (c : Charm) : Res string :=
  n ← _service_name c;
  Ok (py_str n +:+ "-service").

Definition _ingress_name (c : Charm) : Res string :=
  v ← config_get c "service-name";
  Ok (py_str (py_or v (stored_get c "service-name")) +:+ "-ingress").

Definition _max_body_size (c : Charm) : Res string :=
  v ← config_get c "max-body-size";
  let max_body_size := py_or v (stored_get c "max-body-size") in
  if truthy max_body_size then Ok (py_str max_body_size +:+ "m") else Ok "".

Definition _namespace (c : Charm) : Res pyval :=
  v ← config_get c "service-namespace";
  Ok (py_or (py_or v (stored_get c "service-namespace")) (PStr (model_name c))).

Definition _service_hostname (c : Charm) : Res pyval :=
  v ← config_get c "service-hostname";
  Ok (py_or v (stored_get c "service-hostname")).

Definition _service_port (c : Charm) : Res pyval :=
  v ← config_get c "service-port";
  if truthy v then Ok v else py_int (stored_get c "service-port").

Definition _session_cookie_max_age (c : Charm) : Res string :=
  v ← config_get c "session-cookie-max-age";
  let session_cookie_max_age := py_or v (stored_get c "session-cookie-max-age") in
  if truthy session_cookie_max_age then Ok (py_str session_cookie_max_age)
  else Ok "".

Definition _tls_secret_name (c : Charm) : Res pyval :=
  v ← config_get c "tls-secret-name";
  Ok (py_or v (stored_get c "tls-secret-name")).

(** ** The resource builders *)

Definition _get_k8s_service (c : Charm) : Res V1Service :=
  name ← _k8s_service_name c;
  app ← _service_name c;
  p_name ← _service_port c;
  p ← _service_port c;
  p_target ← _service_port c;
  Ok {| svc_api_version := "v1";
        svc_kind := "Service";
        svc_metadata := {| meta_name := name; meta_annotations := None |};
        svc_spec :=
          {| selector := {[ "app.kubernetes.io/name" := app ]};
             ports := [ {| port_name := "tcp-" +:+ py_str p_name;
                           port := p;
                           target_port := p_target |} ];
             cluster_ip := PNone |} |}.

Definition nonempty (s : string) : bool := negb (String.eqb s "").

Definition _get_k8s_ingress (c : Charm) : Res Ingress :=
  h ← _service_hostname c;
  p ← _service_port c;
  svc ← _k8s_service_name c;
  let rules0 :=
    [ {| host := h;
         http_paths :=
           [ {| path := "/";
                backend := {| service_port := p; service_name := svc |} |} ] |} ] in
  let annotations : gmap string string :=
    {[ "nginx.ingress.kubernetes.io/rewrite-target" := "/" ]} in
  size_test ← _max_body_size c;
  annotations ←
    (if nonempty size_test then
       size ← _max_body_size c;
       Ok (<[ "nginx.ingress.kubernetes.io/proxy-body-size" := size ]> annotations)
     else Ok annotations);
  age_test ← _session_cookie_max_age c;
  annotations ←
    (if nonempty age_test then
       let annotations :=
         <[ "nginx.ingress.kubernetes.io/affinity" := "cookie" ]> annotations in
       let annotations :=
         <[ "nginx.ingress.kubernetes.io/affinity-mode" := "balanced" ]> annotations in
       let annotations :=
         <[ "nginx.ingress.kubernetes.io/session-cookie-change-on-failure" := "true" ]>
           annotations in
       age ← _session_cookie_max_age c;
       let annotations :=
         <[ "nginx.ingress.kubernetes.io/session-cookie-max-age" := age ]> annotations in
       app ← _service_name c;
       APP ← py_upper app;
       let annotations :=
         <[ "nginx.ingress.kubernetes.io/session-cookie-name" := APP +:+ "_AFFINITY" ]>
           annotations in
       Ok (<[ "nginx.ingress.kubernetes.io/session-cookie-samesite" := "Lax" ]>
             annotations)
     else Ok annotations);
  secret_test ← _tls_secret_name c;
  '(tls0, annotations) ←
    (if truthy secret_test then
       h' ← _service_hostname c;
       secret ← _tls_secret_name c;
       Ok (Some {| tls_hosts := [h']; secret_name := secret |}, annotations)
     else
       Ok (None,
           <[ "nginx.ingress.kubernetes.io/ssl-redirect" := "false" ]> annotations));
  name ← _ingress_name c;
  Ok {| ing_api_version := "networking.k8s.io/v1beta1";
        ing_kind := "Ingress";
        ing_metadata := {| meta_name := name; meta_annotations := Some annotations |};
        ing_spec := {| rules := rules0; tls := tls0 |} |}.

(** ** The cluster API *)

Definition in_namespace {A} (ns : pyval) (l : list (pyval * A)) : list A :=
  snd <$> filter (fun p => p.1 = ns) l.

Definition named_service (ns : pyval) (name : string) (p : pyval * V1Service) : bool :=
  bool_decide (p.1 = ns) && String.eqb (meta_name (svc_metadata p.2)) name.

Definition named_ingress (ns : pyval) (name : string) (p : pyval * Ingress) : bool :=
  bool_decide (p.1 = ns) && String.eqb (meta_name (ing_metadata p.2)) name.

(** A service as the cluster stores it: the body, with an address. *)
Definition with_cluster_ip (ip : pyval) (s : V1Service) : V1Service :=
  {| svc_api_version := svc_api_version s; svc_kind := svc_kind s;
     svc_metadata := svc_metadata s;
     svc_spec := {| selector := selector (svc_spec s); ports := ports (svc_spec s);
                    cluster_ip := ip |} |}.

Definition list_namespaced_service (ns : pyval) : M (list V1Service) :=
  emit (ListNamespacedService ns);;
  gets (fun w => in_namespace ns (services (cluster w))).

Definition list_namespaced_ingress (ns : pyval) : M (list Ingress) :=
  emit (ListNamespacedIngress ns);;
  gets (fun w => in_namespace ns (ingresses (cluster w))).

(** Creating a name that exists is refused (409). *)
Definition create_namespaced_service (ns : pyval) (body : V1Service) : M unit :=
  emit (CreateNamespacedService ns body);;
  k ← gets cluster;
  let name := meta_name (svc_metadata body) in
  if existsb (named_service ns name) (services k) then raise (ApiException 409)
  else
    set_cluster
      {| services :=
           services k ++ [(ns, with_cluster_ip (assign_ip k ns name) body)];
         ingresses := ingresses k; assign_ip := assign_ip k |}.

Definition create_namespaced_ingress (ns : pyval) (body : Ingress) : M unit :=
  emit (CreateNamespacedIngress ns body);;
  k ← gets cluster;
  let name := meta_name (ing_metadata body) in
  if existsb (named_ingress ns name) (ingresses k) then raise (ApiException 409)
  else
    set_cluster
      {| services := services k; ingresses := ingresses k ++ [(ns, body)];
         assign_ip := assign_ip k |}.

(** Patching a name that does not exist is refused (404); otherwise the
    stored object takes the body and a service keeps its address. *)
Definition patch_namespaced_service (name : string) (ns : pyval) (body : V1Service)
  : M unit :=
  emit (PatchNamespacedService name ns body);;
  k ← gets cluster;
  if existsb (named_service ns name) (services k) then
    set_cluster
      {| services :=
           (fun p => if named_service ns name p
                     then (ns, with_cluster_ip (cluster_ip (svc_spec p.2)) body)
                     else p) <$> services k;
         ingresses := ingresses k; assign_ip := assign_ip k |}
  else raise (ApiException 404).

Definition patch_namespaced_ingress (name : string) (ns : pyval) (body : Ingress)
  : M unit :=
  emit (PatchNamespacedIngress name ns body);;
  k ← gets cluster;
  if existsb (named_ingress ns name) (ingresses k) then
    set_cluster
      {| services := services k;
         ingresses :=
           (fun p => if named_ingress ns name p then (ns, body) else p)
             <$> ingresses k;
         assign_ip := assign_ip k |}
  else raise (ApiException 404).

(** ** Authentication *)

Definition k8s_auth : M unit :=
  done ← gets (authed ∘ charm);
  if done : bool then mret tt
  else
    emit FixLp1892255;;
    kube_config ← prop (fun c => config_get c "kube-config");
    (if truthy kube_config then
       emit (WriteKubeConfig kube_config);; emit LoadKubeConfig
     else emit LoadInclusterConfig);;
    update_charm (set_authed true).

(** ** The reconciler *)

Definition _report_service_ips : M (list pyval) :=
  k8s_auth;;
  ns ← prop _namespace;
  items ← list_namespaced_service ns;
  match items with
  | [] => mret []
  | _ =>
      name ← prop _k8s_service_name;
      mret (cluster_ip ∘ svc_spec <$>
              filter (fun x => meta_name (svc_metadata x) = name) items)
  end.

Definition _define_service : M unit :=
  k8s_auth;;
  body ← prop _get_k8s_service;
  ns ← prop _namespace;
  items ← list_namespaced_service ns;
  name ← prop _k8s_service_name;
  if bool_decide (name ∈ (meta_name ∘ svc_metadata) <$> items) then
    patch_namespaced_service name ns body;;
    app ← prop _service_name;
    logger INFO ("Service updated in namespace " +:+ py_str ns +:+
                 " with name " +:+ py_str app)
  else
    create_namespaced_service ns body;;
    app ← prop _service_name;
    logger INFO ("Service created in namespace " +:+ py_str ns +:+
                 " with name " +:+ py_str app).

Definition _define_ingress : M unit :=
  k8s_auth;;
  body ← prop _get_k8s_ingress;
  ns ← prop _namespace;
  items ← list_namespaced_ingress ns;
  name ← prop _ingress_name;
  if bool_decide (name ∈ (meta_name ∘ ing_metadata) <$> items) then
    patch_namespaced_ingress name ns body;;
    app ← prop _service_name;
    logger INFO ("Ingress updated in namespace " +:+ py_str ns +:+
                 " with name " +:+ py_str app)
  else
    create_namespaced_ingress ns body;;
    app ← prop _service_name;
    logger INFO ("Ingress created in namespace " +:+ py_str ns +:+
                 " with name " +:+ py_str app).

(** ** Validation and the event handlers *)

Definition _ingress_relation_errors (ingress_data : gmap string pyval) : M bool :=
  let missing_fields :=
    sorted (filter (fun field => dict_get ingress_data field = PNone)
                   (elements REQUIRED_INGRESS_RELATION_FIELDS)) in
  match missing_fields with
  | [] => mret false
  | _ =>
      logger ERROR ("Missing required data fields for ingress relation: " +:+
                    join ", " missing_fields);;
      update_charm (set_status
        (BlockedStatus ("Missing fields for ingress: " +:+ join ", " missing_fields)));;
      mret true
  end.

Definition _on_config_changed : M unit :=
  leader ← gets (is_leader ∘ charm);
  named ← (if leader : bool then app ← prop _service_name; mret (truthy app)
           else mret false);
  msg ←
    (if named : bool then
       _define_service;;
       _define_ingress;;
       ips ← _report_service_ips;
       joined ← try_pure (py_join ", " ips);
       mret ("Ingress with service IP(s): " +:+ joined)
     else mret "");
  update_charm (set_status (ActiveStatus msg)).

Definition dquote : string := String (ascii_of_N 34) EmptyString.

(** [if len(relations) > 1: logger.warning(...)] *)
Definition warn_if_multiple (relation : Relation) (more : list Relation) : M unit :=
  match more with
  | [] => mret tt
  | _ =>
      logger WARNING
        ("Multiple relations of type " +:+ dquote +:+ rel_name relation +:+
         dquote +:+ " detected, using only the first one (id: " +:+
         pretty (rel_id relation) +:+ ") for relation data.")
  end.

Fixpoint _get_ingress_relation_data_from (groups : list (list Relation)) : M unit :=
  match groups with
  | [] => mret tt
  | [] :: rest => _get_ingress_relation_data_from rest
  | (relation :: more) :: rest =>
      warn_if_multiple relation more;;
      if String.eqb (rel_name relation) "ingress" then
        let ingress_data : gmap string pyval := PStr <$> rel_data relation in
        errors ← _ingress_relation_errors ingress_data;
        if errors : bool then mret tt
        else
          update_charm (set_stored ingress_data);;
          _get_ingress_relation_data_from rest
      else _get_ingress_relation_data_from rest
  end.

Definition _get_ingress_relation_data : M unit :=
  groups ← gets (relations ∘ charm);
  _get_ingress_relation_data_from groups.

Definition _on_upgrade_charm : M unit := _get_ingress_relation_data.

(** The dictionary the relation-changed handler builds from the remote
    application's bag [event.relation.data[event.app]]: one entry per known
    field, [None] where the bag has none. *)
Definition event_payload (event_data : gmap string string) : gmap string pyval :=
  set_to_map (fun field => (field, from_option PStr PNone (event_data !! field)))
    (REQUIRED_INGRESS_RELATION_FIELDS ∪ OPTIONAL_INGRESS_RELATION_FIELDS).

Definition _on_ingress_relation_changed (event_data : gmap string string) : M unit :=
  leader ← gets (is_leader ∘ charm);
  if negb leader then mret tt
  else
    let ingress_data := event_payload event_data in
    errors ← _ingress_relation_errors ingress_data;
    if errors : bool then mret tt
    else
      update_charm (set_stored ingress_data);;
      _on_config_changed.

(** ** The environment workaround

    [_fix_lp_1892255] hands [os.environ.update] the dictionary
    [dict(e.split("=") for e in text.split("\x00") if "KUBERNETES_SERVICE" in e)]
    where [text] is what [/proc/1/environ] holds.  The dictionary is
    embedded here as a function of that text. *)

(** [s.split(sep)] for a separator of one character. *)
Fixpoint split_on (sep : ascii) (s : string) : list string :=
  match s with
  | EmptyString => [EmptyString]
  | String c r =>
      if Ascii.eqb c sep then EmptyString :: split_on sep r
      else match split_on sep r with
           | x :: xs => String c x :: xs
           | [] => [String c EmptyString]
           end
  end.

(** [needle in s] *)
Fixpoint contains (needle s : string) : bool :=
  String.prefix needle s ||
  match s with
  | String _ r => contains needle r
  | EmptyString => false
  end.

(** [dict(l)] for a sequence of lists: each must have two elements, a later
    pair replaces an earlier one with the same key. *)
Fixpoint dict_of (acc : gmap string string) (l : list (list string))
  : Res (gmap string string) :=
  match l with
  | [] => Ok acc
  | [k; v] :: r => dict_of (<[ k := v ]> acc) r
  | _ :: _ => Err ValueError
  end.

Definition kubernetes_service_entries (text : string) : list string :=
  filter (fun e => contains "KUBERNETES_SERVICE" e = true)
         (split_on (ascii_of_N 0) text).

Definition kubernetes_service_environ (text : string) : Res (gmap string string) :=
  dict_of ∅ (split_on "=" <$> kubernetes_service_entries text).

(** How often a character occurs in a string. *)
Fixpoint occurrences (c : ascii) (s : string) : nat :=
  match s with
  | EmptyString => 0
  | String a r => (if Ascii.eqb a c then 1 else 0) + occurrences c r
  end%nat.

(** ** Vocabulary of the specification *)

(** The required fields in alphabetical order, and those of them for which
    a payload has no value. *)
Definition required_alphabetical : list string :=
  ["service-hostname"; "service-name"; "service-port"].

Definition missing_required (d : gmap string pyval) : list string :=
  filter (fun field => dict_get d field = PNone) required_alphabetical.

(** The world a rejected payload leaves behind: one error line, the blocked
    status, and nothing else. *)
Definition rejected (missing : list string) (w : World) : World :=
  {| charm := set_status
                (BlockedStatus ("Missing fields for ingress: " +:+ join ", " missing))
                (charm w);
     cluster := cluster w;
     effects := effects w;
     log := log w ++
            [(ERROR, "Missing required data fields for ingress relation: " +:+
                     join ", " missing)] |}.

(** The canonical attributes, the key each is read under, and the property
    of the charm that resolves it. *)
Inductive attribute : Type :=
| ServiceHostname
| ServiceName
| ServicePort
| ServiceNamespace
| MaxBodySize
| SessionCookieMaxAge
| TlsSecretName.

Definition key (a : attribute) : string :=
  match a with
  | ServiceHostname => "service-hostname"
  | ServiceName => "service-name"
  | ServicePort => "service-port"
  | ServiceNamespace => "service-namespace"
  | MaxBodySize => "max-body-size"
  | SessionCookieMaxAge => "session-cookie-max-age"
  | TlsSecretName => "tls-secret-name"
  end.

Definition resolve (a : attribute) (c : Charm) : Res pyval :=
  match a with
  | ServiceHostname => _service_hostname c
  | ServiceName => _service_name c
  | ServicePort => _service_port c
  | ServiceNamespace => _namespace c
  | MaxBodySize => PStr <$> _max_body_size c
  | SessionCookieMaxAge => PStr <$> _session_cookie_max_age c
  | TlsSecretName => _tls_secret_name c
  end.



(** The options the charm reads, and a configuration that has them all. *)
Definition option_names : list string :=
  [ "kube-config"; "max-body-size"; "service-hostname"; "service-name";
    "service-namespace"; "service-port"; "session-cookie-max-age";
    "tls-secret-name" ].

Definition declared (c : Charm) : Prop :=
  Forall (fun k => is_Some (config c !! k)) option_names.

(** The value an attribute takes from the two sources: the configured one
    if it is truthy, the cached one otherwise. *)
Definition chosen (c : Charm) (k : string) : pyval :=
  py_or (default PNone (config c !! k)) (stored_get c k).

(** The annotation rules of the specification, each on its own. *)
Definition base_rule : gmap string string :=
  {[ "nginx.ingress.kubernetes.io/rewrite-target" := "/" ]}.

Definition body_size_rule (size : pyval) : gmap string string :=
  if truthy size
  then {[ "nginx.ingress.kubernetes.io/proxy-body-size" := py_str size +:+ "m" ]}
  else ∅.

Definition sticky_rule (age : pyval) (name : string) : gmap string string :=
  if truthy age
  then list_to_map
         [ ("nginx.ingress.kubernetes.io/affinity", "cookie");
           ("nginx.ingress.kubernetes.io/affinity-mode", "balanced");
           ("nginx.ingress.kubernetes.io/session-cookie-change-on-failure", "true");
           ("nginx.ingress.kubernetes.io/session-cookie-max-age", py_str age);
           ("nginx.ingress.kubernetes.io/session-cookie-name",
            upper name +:+ "_AFFINITY");
           ("nginx.ingress.kubernetes.io/session-cookie-samesite", "Lax") ]
  else ∅.

Definition tls_rule (secret : pyval) : gmap string string :=
  if truthy secret then ∅
  else {[ "nginx.ingress.kubernetes.io/ssl-redirect" := "false" ]}.

Definition tls_block (secret hostname : pyval) : option IngressTLS :=
  if truthy secret
  then Some {| tls_hosts := [hostname]; secret_name := secret |}
  else None.

(** Two charm objects that resolve alike: same configuration, same cache,
    same model. *)
Definition same_sources (c c' : Charm) : Prop :=
  config c = config c' /\
  ingress_relation_data c = ingress_relation_data c' /\
  model_name c = model_name c'.

(** The names the API lists in a namespace. *)
Definition listed_services (ns : pyval) (k : Cluster) : list string :=
  (meta_name ∘ svc_metadata) <$> in_namespace ns (services k).

Definition listed_ingresses (ns : pyval) (k : Cluster) : list string :=
  (meta_name ∘ ing_metadata) <$> in_namespace ns (ingresses k).

(** A bag as the framework delivers it: setting a relation key to the empty
    string removes the key, so no key of a delivered bag holds one. *)
Definition deliverable (bag : gmap string string) : Prop :=
  map_Forall (fun _ value => value <> "") bag.

(** ** Sample inputs *)

(** Every option declared, none set. *)
Definition default_config : gmap string pyval :=
  list_to_map
    [ ("kube-config", PStr ""); ("max-body-size", PInt 0);
      ("service-hostname", PStr ""); ("service-name", PStr "");
      ("service-namespace", PStr ""); ("service-port", PInt 0);
      ("session-cookie-max-age", PInt 0); ("tls-secret-name", PStr "") ].

Definition web_config : gmap string pyval :=
  <[ "service-name" := PStr "web" ]>
    (<[ "service-hostname" := PStr "web.example.com" ]>
       (<[ "service-port" := PInt 8080 ]> default_config)).

Definition web_bag : gmap string string :=
  list_to_map
    [ ("service-hostname", "web.example.com"); ("service-name", "web");
      ("service-port", "8080") ].

Definition sample_charm (cfg : gmap string pyval) (leader : bool)
    (groups : list (list Relation)) (stored : gmap string pyval) : Charm :=
  {| config := cfg; is_leader := leader; model_name := "ingress-model";
     relations := groups; ingress_relation_data := stored;
     authed := false; status := UnknownStatus |}.

Definition empty_cluster : Cluster :=
  {| services := []; ingresses := [];
     assign_ip := fun _ _ => PStr "10.152.183.7" |}.

Definition sample_world (c : Charm) : World :=
  {| charm := c; cluster := empty_cluster; effects := []; log := [] |}.

Definition follower_world : World :=
  sample_world (sample_charm web_config false [] ∅).

Definition leader_world : World :=
  sample_world (sample_charm default_config true [] ∅).

(** A bag whose hostname is the empty string, and one without a port. *)
Definition empty_hostname_bag : gmap string string :=
  <[ "service-hostname" := "" ]> web_bag.

Definition api_bag : gmap string string :=
  list_to_map
    [ ("service-hostname", "api.example.com"); ("service-name", "api");
      ("service-port", "9000") ].

Definition portless_bag : gmap string string :=
  delete "service-port" web_bag.

Definition sticky_config : gmap string pyval :=
  <[ "session-cookie-max-age" := PInt 3600 ]> web_config.

Definition tls_config : gmap string pyval :=
  <[ "tls-secret-name" := PStr "web-tls" ]>
    (<[ "max-body-size" := PInt 20 ]> web_config).

Definition web_charm : Charm := sample_charm web_config true [] ∅.
Definition sticky_charm : Charm := sample_charm sticky_config true [] ∅.
Definition tls_charm : Charm := sample_charm tls_config true [] ∅.

(** The annotations of a built ingress (none if it has no map). *)
Definition annotations_of (ing : Ingress) : gmap string string :=
  match meta_annotations (ing_metadata ing) with
  | Some annotations => annotations
  | None => ∅
  end.

(** A relation group that is not the ingress one (or is empty). *)
Definition not_ingress (group : list Relation) : Prop :=
  match group with
  | [] => True
  | relation :: _ => rel_name relation <> "ingress"
  end.

(** A bag with a value for every required field. *)
Definition complete (bag : gmap string string) : Prop :=
  Forall (fun field => is_Some (bag !! field)) required_alphabetical.

(** The leader's world some time after it cached the [web_bag] payload: the
    remote application has since published [api_bag], and no option is
    set. *)
Definition ingress_relation (bag : gmap string string) : Relation :=
  {| rel_name := "ingress"; rel_id := 4; rel_data := bag |}.

Definition stale_world : World :=
  sample_world
    (sample_charm default_config true [[ingress_relation api_bag]]
       (event_payload web_bag)).

(** The unit right after an upgrade that has reset the stored state. *)
Definition upgraded_world : World :=
  sample_world
    (sample_charm default_config true [[ingress_relation web_bag]] stored_default).

(** ** Frames

    What a handler leaves as it was, whatever its outcome.  [kept]: every
    field of the charm object but the [_authed] flag and the status;
    [status_kept]: the status; [cluster_kept]: the cluster, and the creates
    and patches issued so far. *)
Definition kept (w w' : World) : Prop :=
  config (charm w') = config (charm w) /\
  ingress_relation_data (charm w') = ingress_relation_data (charm w) /\
  model_name (charm w') = model_name (charm w) /\
  is_leader (charm w') = is_leader (charm w) /\
  relations (charm w') = relations (charm w).

Definition status_kept (w w' : World) : Prop :=
  status (charm w') = status (charm w).

Definition cluster_kept (w w' : World) : Prop :=
  cluster w' = cluster w /\
  filter (fun e => is_mutation e = true) (effects w') =
  filter (fun e => is_mutation e = true) (effects w).

(** A computation is stable for a relation when the world it ends in is
    related to the one it started from, on success and on failure. *)
Definition stable (R : World -> World -> Prop) {A} (m : M A) : Prop :=
  forall w, R w (m w).2.

(** The addresses [_report_service_ips] picks from a cluster. *)
Definition service_ips (ns : pyval) (name : string) (k : Cluster) : list pyval :=
  cluster_ip ∘ svc_spec <$>
    filter (fun x => meta_name (svc_metadata x) = name) (in_namespace ns (services k)).

(** A handler that sets the active status when it returns, and leaves the
    status alone when it raises. *)
Definition ends_active (m : M unit) : Prop :=
  forall w,
    match (m w).1 with
    | Ok _ => exists msg, status (charm (m w).2) = ActiveStatus msg
    | Err _ => status (charm (m w).2) = status (charm w)
    end.

(** A cluster that already has a service of the expected name, without a
    cluster address. *)
Definition addressless_world : World :=
  {| charm := web_charm;
     cluster :=
       {| services :=
            [ (PStr "ingress-model",
               {| svc_api_version := "v1"; svc_kind := "Service";
                  svc_metadata := {| meta_name := "web-service";
                                     meta_annotations := None |};
                  svc_spec := {| selector := ∅; ports := []; cluster_ip := PNone |} |}) ];
          ingresses := [];
          assign_ip := fun _ _ => PStr "10.152.183.7" |};
     effects := [];
     log := [] |}.

(** A unit whose only relations are two on another endpoint. *)
Definition database_world : World :=
  sample_world
    (sample_charm default_config true
       [[ {| rel_name := "database"; rel_id := 2; rel_data := web_bag |};
          {| rel_name := "database"; rel_id := 3; rel_data := api_bag |} ]]
       stored_default).

(** What [/proc/1/environ] may hold: entries ended by a NUL character. *)
Definition nul : string := String (ascii_of_N 0) EmptyString.

Definition sample_environ : string :=
  "PATH=/usr/bin" +:+ nul +:+ "KUBERNETES_SERVICE_HOST=10.152.183.1" +:+ nul +:+
  "KUBERNETES_SERVICE_PORT=443" +:+ nul.

Definition broken_environ : string :=
  "KUBERNETES_SERVICE_HOST=10.152.183.1" +:+ nul +:+
  "OPTS=--master=KUBERNETES_SERVICE" +:+ nul.

(** * Properties *)

Example python_builtins :
  py_int (PStr "8080") = Ok (PInt 8080) /\
  py_int (PStr " -1_000 ") = Ok (PInt (-1000)) /\
  py_int (PStr "http") = Err ValueError /\
  py_int (PStr "") = Err ValueError /\
  py_int (PStr "8_") = Err ValueError /\
  py_int (PStr (String (ascii_of_N 31) "8080")) = Err ValueError /\
  py_int (PStr (String (ascii_of_N 9) "8080")) = Ok (PInt 8080) /\
  py_str (PInt 8080) = "8080" /\
  upper "web-1" = "WEB-1" /\
  join ", " ["a"; "b"; "c"] = "a, b, c" /\
  sorted ["service-port"; "service-hostname"; "service-name"] = required_alphabetical.
Proof. repeat split; vm_compute; reflexivity. Qed.

(** ** Validation *)

Lemma elements_required :
  elements REQUIRED_INGRESS_RELATION_FIELDS =
  ["service-name"; "service-hostname"; "service-port"].
Proof. vm_compute. reflexivity. Qed.

Lemma elem_of_required (f : string) :
  f ∈ REQUIRED_INGRESS_RELATION_FIELDS <-> f ∈ required_alphabetical.
Proof.
  unfold REQUIRED_INGRESS_RELATION_FIELDS, required_alphabetical.
  rewrite !elem_of_union, !elem_of_singleton, !elem_of_cons, elem_of_nil.
  tauto.
Qed.

(** Whatever order the set is walked in, sorting the fields without a value
    gives them in alphabetical order. *)
Lemma missing_fields_sorted (d : gmap string pyval) :
  sorted (filter (fun field => dict_get d field = PNone)
                 (elements REQUIRED_INGRESS_RELATION_FIELDS)) = missing_required d.
Proof.
  rewrite elements_required. unfold missing_required, required_alphabetical.
  rewrite !filter_cons, !filter_nil.
  destruct (decide (dict_get d "service-name" = PNone));
    destruct (decide (dict_get d "service-hostname" = PNone));
    destruct (decide (dict_get d "service-port" = PNone)); reflexivity.
Qed.

Lemma ingress_relation_errors_run (d : gmap string pyval) (w : World) :
  _ingress_relation_errors d w =
  match missing_required d with
  | [] => (Ok false, w)
  | missing => (Ok true, rejected missing w)
  end.
Proof.
  unfold _ingress_relation_errors. rewrite missing_fields_sorted.
  destruct (missing_required d) as [|f l]; reflexivity.
Qed.

Lemma missing_required_ascending (d : gmap string pyval) :
  StronglySorted (fun a b => String.ltb a b = true) (missing_required d).
Proof.
  unfold missing_required, required_alphabetical.
  rewrite !filter_cons, !filter_nil.
  repeat case_decide; repeat constructor.
Qed.

Lemma elem_of_missing_required (d : gmap string pyval) (f : string) :
  f ∈ missing_required d <->
  f ∈ REQUIRED_INGRESS_RELATION_FIELDS /\ dict_get d f = PNone.
Proof.
  unfold missing_required. rewrite list_elem_of_filter, elem_of_required. tauto.
Qed.

(** C1. A payload is rejected exactly when some required field has no
    value; the blocked status then reads "Missing fields for ingress: "
    followed by the required fields without a value, each once, in
    ascending alphabetical order, joined with ", ".  A payload with a value
    for every required field is not rejected and nothing changes. *)
Theorem missing_fields_reported (d : gmap string pyval) (w : World) :
  let missing := missing_required d in
  (forall f, f ∈ missing <->
             f ∈ REQUIRED_INGRESS_RELATION_FIELDS /\ dict_get d f = PNone) /\
  StronglySorted (fun a b => String.ltb a b = true) missing /\
  (missing <> [] <->
   exists f, f ∈ REQUIRED_INGRESS_RELATION_FIELDS /\ dict_get d f = PNone) /\
  _ingress_relation_errors d w =
    (if bool_decide (missing = []) then (Ok false, w)
     else (Ok true, rejected missing w)) /\
  status (charm (rejected missing w)) =
    BlockedStatus ("Missing fields for ingress: " +:+ join ", " missing).
Proof.
  intros missing. split; [apply elem_of_missing_required|].
  split; [apply missing_required_ascending|].
  split; [|split; [|reflexivity]].
  - split.
    + intros Hne. destruct missing as [|f l] eqn:E; [done|].
      exists f. apply elem_of_missing_required. fold missing in E |- *.
      rewrite E. left.
    + intros (f & Hf). apply elem_of_missing_required in Hf.
      intros E. fold missing in Hf. rewrite E in Hf. by apply elem_of_nil in Hf.
  - rewrite ingress_relation_errors_run. fold missing.
    destruct missing; reflexivity.
Qed.

(** ** The payload built by the relation-changed handler *)

Lemma event_payload_lookup (event_data : gmap string string) (f : string) :
  f ∈ REQUIRED_INGRESS_RELATION_FIELDS ∪ OPTIONAL_INGRESS_RELATION_FIELDS ->
  event_payload event_data !! f = Some (from_option PStr PNone (event_data !! f)).
Proof.
  intros Hf. unfold event_payload. apply lookup_set_to_map.
  - intros y y' _ _ E. exact E.
  - exists f. split; [exact Hf | reflexivity].
Qed.

Lemma event_payload_get (event_data : gmap string string) (f : string) :
  f ∈ REQUIRED_INGRESS_RELATION_FIELDS ∪ OPTIONAL_INGRESS_RELATION_FIELDS ->
  dict_get (event_payload event_data) f = from_option PStr PNone (event_data !! f).
Proof.
  intros Hf. unfold dict_get. by rewrite event_payload_lookup.
Qed.

Lemma event_payload_none (event_data : gmap string string) (f : string) :
  f ∈ REQUIRED_INGRESS_RELATION_FIELDS ->
  dict_get (event_payload event_data) f = PNone <-> event_data !! f = None.
Proof.
  intros Hf. rewrite event_payload_get by (apply elem_of_union; by left).
  destruct (event_data !! f); simpl; split; congruence.
Qed.

Lemma bag_get (bag : gmap string string) (f : string) :
  dict_get (PStr <$> bag) f = from_option PStr PNone (bag !! f).
Proof. unfold dict_get. rewrite lookup_fmap. by destruct (bag !! f). Qed.

(** ** What the handlers leave alone *)

Lemma ingress_relation_errors_frame (d : gmap string pyval) (w : World) :
  let r := _ingress_relation_errors d w in
  cluster r.2 = cluster w /\ effects r.2 = effects w /\
  ingress_relation_data (charm r.2) = ingress_relation_data (charm w) /\
  config (charm r.2) = config (charm w) /\
  model_name (charm r.2) = model_name (charm w).
Proof.
  simpl. rewrite ingress_relation_errors_run.
  destruct (missing_required d); simpl; auto.
Qed.

Lemma warn_if_multiple_run (relation : Relation) (more : list Relation) (w : World) :
  exists w1, warn_if_multiple relation more w = (Ok tt, w1) /\
             cluster w1 = cluster w /\ effects w1 = effects w /\ charm w1 = charm w.
Proof.
  unfold warn_if_multiple. destruct more; eexists; (split; [reflexivity|]); auto.
Qed.

(** Resyncing from the relations never reaches the cluster, and whatever it
    stores has passed validation. *)
Lemma get_ingress_relation_data_from_frame (groups : list (list Relation)) :
  forall (w : World) (r : Res unit) (w' : World),
    _get_ingress_relation_data_from groups w = (r, w') ->
    cluster w' = cluster w /\ effects w' = effects w /\
    config (charm w') = config (charm w) /\
    model_name (charm w') = model_name (charm w) /\
    (ingress_relation_data (charm w') = ingress_relation_data (charm w) \/
     exists relation more,
       (relation :: more) ∈ groups /\ rel_name relation = "ingress" /\
       missing_required (PStr <$> rel_data relation) = [] /\
       ingress_relation_data (charm w') = PStr <$> rel_data relation).
Proof.
  induction groups as [|group rest IH]; intros w r w' Hrun; simpl in Hrun.
  - injection Hrun as _ <-. auto 6.
  - destruct group as [|relation more].
    + destruct (IH _ _ _ Hrun) as (Hk & He & Hc & Hm & Hd). repeat split; auto.
      destruct Hd as [Hd|(r0 & m0 & Hin & Hr)]; [by left|right].
      exists r0, m0. split; [by right | exact Hr].
    + unfold mbind, M_bind at 1 in Hrun.
      destruct (warn_if_multiple_run relation more w) as (w1 & Hw1 & Hk1 & He1 & Hc1).
      rewrite Hw1 in Hrun.
      destruct (String.eqb (rel_name relation) "ingress") eqn:Hname.
      * unfold mbind, M_bind in Hrun. rewrite ingress_relation_errors_run in Hrun.
        destruct (missing_required (PStr <$> rel_data relation)) eqn:Hmiss.
        -- unfold update_charm in Hrun.
           destruct (IH _ _ _ Hrun) as (Hk & He & Hc & Hm & Hd).
           simpl in Hk, He, Hc, Hm, Hd.
           rewrite Hk, He, Hc, Hm, Hk1, He1, Hc1.
           repeat split; auto. right.
           destruct Hd as [Hd|(r0 & m0 & Hin & Hr)].
           ++ exists relation, more. split; [left|].
              apply String.eqb_eq in Hname. rewrite Hd. auto.
           ++ exists r0, m0. split; [by right | exact Hr].
        -- injection Hrun as _ <-. simpl. rewrite Hk1, He1, Hc1. auto 6.
      * destruct (IH _ _ _ Hrun) as (Hk & He & Hc & Hm & Hd).
        rewrite Hk, He, Hc, Hm, Hk1, He1, Hc1. repeat split; auto.
        destruct Hd as [Hd|(r0 & m0 & Hin & Hr)]; [left; by rewrite Hd, Hc1|right].
        exists r0, m0. split; [by right | exact Hr].
Qed.

Lemma get_ingress_relation_data_frame (w w' : World) (r : Res unit) :
  _get_ingress_relation_data w = (r, w') ->
  cluster w' = cluster w /\ effects w' = effects w /\
  config (charm w') = config (charm w) /\
  model_name (charm w') = model_name (charm w) /\
  (ingress_relation_data (charm w') = ingress_relation_data (charm w) \/
   exists relation more,
     (relation :: more) ∈ relations (charm w) /\ rel_name relation = "ingress" /\
     missing_required (PStr <$> rel_data relation) = [] /\
     ingress_relation_data (charm w') = PStr <$> rel_data relation).
Proof. apply get_ingress_relation_data_from_frame. Qed.

(** ** Leadership *)

Lemma relation_changed_follower (event_data : gmap string string) (w : World) :
  is_leader (charm w) = false ->
  _on_ingress_relation_changed event_data w = (Ok tt, w).
Proof.
  intros Hl. unfold _on_ingress_relation_changed, mbind, M_bind, gets. simpl.
  by rewrite Hl.
Qed.

Lemma config_changed_follower (w : World) :
  is_leader (charm w) = false ->
  _on_config_changed w =
  (Ok tt, set_charm (set_status (ActiveStatus "") (charm w)) w).
Proof.
  intros Hl. unfold _on_config_changed, mbind, M_bind, gets. simpl.
  by rewrite Hl.
Qed.

(** C8. On a unit that is not the leader no handler reaches the cluster:
    the relation-changed handler returns at once and changes nothing, the
    config-changed handler only sets the active status with an empty
    message, and the upgrade handler (which never calls the cluster
    anyway) leaves the cluster and the record of API calls as they were. *)
Theorem follower_never_mutates (w : World) (event_data : gmap string string) :
  is_leader (charm w) = false ->
  _on_ingress_relation_changed event_data w = (Ok tt, w) /\
  _on_config_changed w =
    (Ok tt, set_charm (set_status (ActiveStatus "") (charm w)) w) /\
  effects (_on_config_changed w).2 = effects w /\
  cluster (_on_config_changed w).2 = cluster w /\
  effects (_on_upgrade_charm w).2 = effects w /\
  cluster (_on_upgrade_charm w).2 = cluster w.
Proof.
  intros Hl. split; [by apply relation_changed_follower|].
  rewrite config_changed_follower by done. split; [done|]. split; [done|].
  split; [done|].
  unfold _on_upgrade_charm.
  destruct (_get_ingress_relation_data w) as [r w'] eqn:Hrun.
  apply get_ingress_relation_data_frame in Hrun as (Hk & He & _). simpl. auto.
Qed.

Lemma follower_never_mutates_witness :
  is_leader (charm follower_world) = false /\
  _on_ingress_relation_changed web_bag follower_world = (Ok tt, follower_world) /\
  effects (_on_config_changed follower_world).2 = [] /\
  effects (_on_upgrade_charm follower_world).2 = [].
Proof.
  split; [reflexivity|].
  destruct (follower_never_mutates follower_world web_bag)
    as (H1 & _ & H2 & _ & H3 & _); [reflexivity|].
  auto.
Defined.

(** ** Rejection *)

Lemma missing_required_nonempty (d : gmap string pyval) (f : string) :
  f ∈ REQUIRED_INGRESS_RELATION_FIELDS -> dict_get d f = PNone ->
  missing_required d <> [].
Proof.
  intros Hf Hd E.
  assert (Hin : f ∈ missing_required d) by (by apply elem_of_missing_required).
  rewrite E in Hin. by apply elem_of_nil in Hin.
Qed.

Lemma relation_changed_rejects (event_data : gmap string string) (w : World) (f : string) :
  f ∈ REQUIRED_INGRESS_RELATION_FIELDS -> event_data !! f = None ->
  is_leader (charm w) = true ->
  _on_ingress_relation_changed event_data w =
  (Ok tt, rejected (missing_required (event_payload event_data)) w).
Proof.
  intros Hf Hnone Hl.
  unfold _on_ingress_relation_changed, mbind, M_bind, gets. simpl. rewrite Hl. simpl.
  rewrite ingress_relation_errors_run.
  pose proof (missing_required_nonempty (event_payload event_data) f Hf) as Hne.
  destruct (missing_required (event_payload event_data)); [|reflexivity].
  exfalso. apply Hne; [|reflexivity]. by apply event_payload_none.
Qed.

(** C2. When a delivered bag has no value for some required field (the key
    is not there; an empty value is no value either, and a delivered bag
    holds none), the relation-changed handler returns normally, issues no
    API call, leaves the cluster and the cached payload exactly as they
    were, and on the leader does nothing but log one error line and set the
    blocked status.  On the upgrade path too the cache only ever changes to
    a payload that has passed validation. *)
Theorem missing_field_leaves_cache (event_data : gmap string string) (w : World)
    (f : string) :
  deliverable event_data ->
  f ∈ REQUIRED_INGRESS_RELATION_FIELDS ->
  event_data !! f = None \/ event_data !! f = Some "" ->
  (_on_ingress_relation_changed event_data w).1 = Ok tt /\
  (_on_ingress_relation_changed event_data w).2 =
    (if is_leader (charm w)
     then rejected (missing_required (event_payload event_data)) w else w) /\
  ingress_relation_data (charm (_on_ingress_relation_changed event_data w).2) =
    ingress_relation_data (charm w) /\
  cluster (_on_ingress_relation_changed event_data w).2 = cluster w /\
  effects (_on_ingress_relation_changed event_data w).2 = effects w /\
  (ingress_relation_data (charm (_get_ingress_relation_data w).2) =
     ingress_relation_data (charm w) \/
   exists relation more,
     (relation :: more) ∈ relations (charm w) /\ rel_name relation = "ingress" /\
     missing_required (PStr <$> rel_data relation) = [] /\
     ingress_relation_data (charm (_get_ingress_relation_data w).2) =
       PStr <$> rel_data relation).
Proof.
  intros Hdel Hf Hlacks.
  assert (Hnone : event_data !! f = None).
  { destruct Hlacks as [H|H]; [exact H|].
    exfalso. by apply (map_Forall_lookup_1 _ _ _ _ Hdel H). }
  assert (Hrun : _on_ingress_relation_changed event_data w =
                 (Ok tt, if is_leader (charm w)
                         then rejected (missing_required (event_payload event_data)) w
                         else w)).
  { destruct (is_leader (charm w)) eqn:Hl.
    - by apply relation_changed_rejects with f.
    - by apply relation_changed_follower. }
  rewrite Hrun. simpl.
  repeat (split; [try reflexivity; by destruct (is_leader (charm w))|]).
  destruct (_get_ingress_relation_data w) as [r w'] eqn:Hup.
  apply get_ingress_relation_data_frame in Hup. simpl. tauto.
Qed.

Lemma missing_field_leaves_cache_witness :
  deliverable portless_bag /\
  "service-port" ∈ REQUIRED_INGRESS_RELATION_FIELDS /\
  portless_bag !! "service-port" = None /\
  (_on_ingress_relation_changed portless_bag leader_world).2 =
    rejected ["service-port"] leader_world /\
  effects (_on_ingress_relation_changed portless_bag leader_world).2 = [].
Proof.
  assert (H0 : deliverable portless_bag)
    by (unfold deliverable; apply (bool_decide_unpack _); vm_compute; exact I).
  assert (H1 : "service-port" ∈ REQUIRED_INGRESS_RELATION_FIELDS)
    by (apply elem_of_required; vm_compute; set_solver).
  assert (H2 : portless_bag !! "service-port" = None) by (vm_compute; reflexivity).
  split; [exact H0|]. split; [exact H1|]. split; [exact H2|].
  destruct (missing_field_leaves_cache portless_bag leader_world "service-port"
              H0 H1 (or_introl H2))
    as (_ & Hw & _ & _ & He & _).
  split; [|exact He].
  rewrite Hw. vm_compute. reflexivity.
Defined.

(** The validator itself tests for [None] only.  A bag built by hand with
    an empty hostname, which is not one the framework delivers, passes
    validation, replaces the cache and lets the leader create both
    resources. *)
Lemma empty_value_is_cached :
  ~ deliverable empty_hostname_bag /\
  empty_hostname_bag !! "service-hostname" = Some "" /\
  (_on_ingress_relation_changed empty_hostname_bag leader_world).1 = Ok tt /\
  ingress_relation_data (charm leader_world) = ∅ /\
  dict_get (ingress_relation_data
              (charm (_on_ingress_relation_changed empty_hostname_bag leader_world).2))
           "service-name" = PStr "web" /\
  List.length (filter (fun e => is_create e = true)
            (effects (_on_ingress_relation_changed empty_hostname_bag leader_world).2))
    = 2%nat.
Proof.
  split.
  { intros Hdel.
    by apply (map_Forall_lookup_1 _ _ "service-hostname" "" Hdel). }
  repeat split; vm_compute; reflexivity.
Qed.

(** ** The resolver *)

Lemma config_get_some (c : Charm) (k : string) (v : pyval) :
  config c !! k = Some v -> config_get c k = Ok v.
Proof. intros H. unfold config_get. by rewrite H. Qed.





(** ** The builders *)

Lemma pretty_N_go_nonempty (x : N) : forall s, s <> "" -> pretty_N_go x s <> "".
Proof.
  induction (N.lt_wf_0 x) as [x _ IH]; intros s Hs.
  destruct (decide (x = 0%N)) as [->|Hx].
  - by rewrite pretty_N_go_0.
  - rewrite pretty_N_go_step by lia. apply IH; [apply N.div_lt; lia | done].
Qed.

Lemma pretty_Z_nonempty (z : Z) : pretty z <> "".
Proof.
  destruct z as [|x|x]; [done| |done].
  unfold pretty, pretty_Z, pretty, pretty_positive, pretty, pretty_N.
  rewrite decide_False by done.
  rewrite pretty_N_go_step by lia. by apply pretty_N_go_nonempty.
Qed.

Lemma nonempty_iff (s : string) : nonempty s = true <-> s <> "".
Proof.
  unfold nonempty. rewrite negb_true_iff. destruct (String.eqb_spec s ""); split; congruence.
Qed.

Lemma truthy_str_nonempty (v : pyval) : truthy v = true -> nonempty (py_str v) = true.
Proof.
  destruct v as [|s|z]; simpl; [discriminate|done|].
  intros _. apply nonempty_iff, pretty_Z_nonempty.
Qed.

Lemma nonempty_suffix (s t : string) : t <> "" -> nonempty (s +:+ t) = true.
Proof. intros Ht. apply nonempty_iff. destruct s; simpl; [done|discriminate]. Qed.

Lemma declared_get (c : Charm) (k : string) :
  declared c -> k ∈ option_names ->
  config_get c k = Ok (default PNone (config c !! k)).
Proof.
  intros Hd Hk. unfold declared in Hd. rewrite Forall_forall in Hd.
  destruct (Hd k Hk) as [v Hv]. unfold config_get. by rewrite Hv.
Qed.

Ltac option_name := unfold option_names; set_solver.

Lemma service_hostname_run (c : Charm) :
  declared c -> _service_hostname c = Ok (chosen c "service-hostname").
Proof.
  intros Hd. unfold _service_hostname. rewrite declared_get by (done || option_name).
  reflexivity.
Qed.

Lemma tls_secret_name_run (c : Charm) :
  declared c -> _tls_secret_name c = Ok (chosen c "tls-secret-name").
Proof.
  intros Hd. unfold _tls_secret_name. rewrite declared_get by (done || option_name).
  reflexivity.
Qed.

Lemma service_name_run (c : Charm) :
  declared c -> _service_name c = Ok (chosen c "service-name").
Proof.
  intros Hd. unfold _service_name. rewrite declared_get by (done || option_name).
  reflexivity.
Qed.

Lemma namespace_run (c : Charm) :
  declared c ->
  _namespace c = Ok (py_or (chosen c "service-namespace") (PStr (model_name c))).
Proof.
  intros Hd. unfold _namespace. rewrite declared_get by (done || option_name).
  reflexivity.
Qed.

Lemma max_body_size_run (c : Charm) :
  declared c ->
  _max_body_size c =
  Ok (if truthy (chosen c "max-body-size")
      then py_str (chosen c "max-body-size") +:+ "m" else "").
Proof.
  intros Hd. unfold _max_body_size. rewrite declared_get by (done || option_name).
  simpl. fold (chosen c "max-body-size").
  by destruct (truthy (chosen c "max-body-size")).
Qed.

Lemma session_cookie_max_age_run (c : Charm) :
  declared c ->
  _session_cookie_max_age c =
  Ok (if truthy (chosen c "session-cookie-max-age")
      then py_str (chosen c "session-cookie-max-age") else "").
Proof.
  intros Hd. unfold _session_cookie_max_age.
  rewrite declared_get by (done || option_name).
  simpl. fold (chosen c "session-cookie-max-age").
  by destruct (truthy (chosen c "session-cookie-max-age")).
Qed.

Lemma k8s_service_name_run (c : Charm) (v : pyval) :
  _service_name c = Ok v -> _k8s_service_name c = Ok (py_str v +:+ "-service").
Proof. intros H. unfold _k8s_service_name. by rewrite H. Qed.

Lemma ingress_name_run (c : Charm) (v : pyval) :
  _service_name c = Ok v -> _ingress_name c = Ok (py_str v +:+ "-ingress").
Proof.
  unfold _service_name, _ingress_name.
  destruct (config_get c "service-name"); simpl; congruence.
Qed.

Lemma get_k8s_service_run (c : Charm) (v p : pyval) :
  _service_name c = Ok v -> _service_port c = Ok p ->
  _get_k8s_service c =
  Ok {| svc_api_version := "v1";
        svc_kind := "Service";
        svc_metadata := {| meta_name := py_str v +:+ "-service";
                           meta_annotations := None |};
        svc_spec :=
          {| selector := {[ "app.kubernetes.io/name" := v ]};
             ports := [ {| port_name := "tcp-" +:+ py_str p;
                           port := p; target_port := p |} ];
             cluster_ip := PNone |} |}.
Proof.
  intros Hn Hp. unfold _get_k8s_service.
  rewrite (k8s_service_name_run c v Hn), Hn, Hp. reflexivity.
Qed.

(** The annotations are the union of the four rules, whichever of them
    apply. *)
Lemma annotations_union (size age secret : bool) (x y z : string) :
  let a0 : gmap string string :=
    {[ "nginx.ingress.kubernetes.io/rewrite-target" := "/" ]} in
  let a1 := if size
            then <[ "nginx.ingress.kubernetes.io/proxy-body-size" := x ]> a0
            else a0 in
  let a2 :=
    if age
    then <[ "nginx.ingress.kubernetes.io/session-cookie-samesite" := "Lax" ]>
           (<[ "nginx.ingress.kubernetes.io/session-cookie-name" := z ]>
              (<[ "nginx.ingress.kubernetes.io/session-cookie-max-age" := y ]>
                 (<[ "nginx.ingress.kubernetes.io/session-cookie-change-on-failure"
                     := "true" ]>
                    (<[ "nginx.ingress.kubernetes.io/affinity-mode" := "balanced" ]>
                       (<[ "nginx.ingress.kubernetes.io/affinity" := "cookie" ]> a1)))))
    else a1 in
  (if secret then a2
   else <[ "nginx.ingress.kubernetes.io/ssl-redirect" := "false" ]> a2) =
  base_rule
  ∪ (if size then {[ "nginx.ingress.kubernetes.io/proxy-body-size" := x ]} else ∅)
  ∪ (if age
     then list_to_map
            [ ("nginx.ingress.kubernetes.io/affinity", "cookie");
              ("nginx.ingress.kubernetes.io/affinity-mode", "balanced");
              ("nginx.ingress.kubernetes.io/session-cookie-change-on-failure", "true");
              ("nginx.ingress.kubernetes.io/session-cookie-max-age", y);
              ("nginx.ingress.kubernetes.io/session-cookie-name", z);
              ("nginx.ingress.kubernetes.io/session-cookie-samesite", "Lax") ]
     else ∅)
  ∪ (if secret then ∅
     else {[ "nginx.ingress.kubernetes.io/ssl-redirect" := "false" ]}).
Proof.
  destruct size, age, secret; vm_compute; reflexivity.
Qed.

Lemma get_k8s_ingress_run (c : Charm) (n : string) (p : pyval) :
  declared c -> _service_name c = Ok (PStr n) -> _service_port c = Ok p ->
  _get_k8s_ingress c =
  Ok {| ing_api_version := "networking.k8s.io/v1beta1";
        ing_kind := "Ingress";
        ing_metadata :=
          {| meta_name := n +:+ "-ingress";
             meta_annotations :=
               Some (base_rule
                     ∪ body_size_rule (chosen c "max-body-size")
                     ∪ sticky_rule (chosen c "session-cookie-max-age") n
                     ∪ tls_rule (chosen c "tls-secret-name")) |};
        ing_spec :=
          {| rules :=
               [ {| host := chosen c "service-hostname";
                    http_paths :=
                      [ {| path := "/";
                           backend := {| service_port := p;
                                         service_name := n +:+ "-service" |} |} ] |} ];
             tls := tls_block (chosen c "tls-secret-name")
                              (chosen c "service-hostname") |} |}.
Proof.
  intros Hd Hn Hp. unfold _get_k8s_ingress.
  rewrite (service_hostname_run c Hd), Hp, (k8s_service_name_run c _ Hn),
    (max_body_size_run c Hd), (session_cookie_max_age_run c Hd), Hn,
    (tls_secret_name_run c Hd), (ingress_name_run c _ Hn).
  unfold body_size_rule, sticky_rule, tls_rule, tls_block.
  destruct (truthy (chosen c "max-body-size")) eqn:Hsize;
    cbn [mbind Res_bind nonempty String.eqb negb];
    [rewrite nonempty_suffix by done|];
    (destruct (truthy (chosen c "session-cookie-max-age")) eqn:Hage;
     cbn [mbind Res_bind nonempty String.eqb negb];
     [rewrite (truthy_str_nonempty _ Hage)|];
     cbn [mbind Res_bind py_upper py_str];
     destruct (truthy (chosen c "tls-secret-name")) eqn:Hsecret;
     cbn [mbind Res_bind];
     match goal with
     | |- context [base_rule ∪ ?s ∪ ?a ∪ ?t] =>
         match s with
         | ∅ =>
             match a with
             | ∅ => match t with
                    | ∅ => pose proof (annotations_union false false true "" "" "") as E
                    | _ => pose proof (annotations_union false false false "" "" "") as E
                    end
             | _ => match t with
                    | ∅ => pose proof (annotations_union false true true ""
                                         (py_str (chosen c "session-cookie-max-age"))
                                         (upper n +:+ "_AFFINITY")) as E
                    | _ => pose proof (annotations_union false true false ""
                                         (py_str (chosen c "session-cookie-max-age"))
                                         (upper n +:+ "_AFFINITY")) as E
                    end
             end
         | _ =>
             match a with
             | ∅ => match t with
                    | ∅ => pose proof (annotations_union true false true
                                         (py_str (chosen c "max-body-size") +:+ "m")
                                         "" "") as E
                    | _ => pose proof (annotations_union true false false
                                         (py_str (chosen c "max-body-size") +:+ "m")
                                         "" "") as E
                    end
             | _ => match t with
                    | ∅ => pose proof (annotations_union true true true
                                         (py_str (chosen c "max-body-size") +:+ "m")
                                         (py_str (chosen c "session-cookie-max-age"))
                                         (upper n +:+ "_AFFINITY")) as E
                    | _ => pose proof (annotations_union true true false
                                         (py_str (chosen c "max-body-size") +:+ "m")
                                         (py_str (chosen c "session-cookie-max-age"))
                                         (upper n +:+ "_AFFINITY")) as E
                    end
             end
         end
     end;
     cbv beta iota zeta in E; rewrite <- E; reflexivity).
Qed.

Lemma rules_lookup (big age secret : bool) (x y z : string) :
  let m : gmap string string :=
    base_rule
    ∪ (if big then {[ "nginx.ingress.kubernetes.io/proxy-body-size" := x ]} else ∅)
    ∪ (if age
       then list_to_map
              [ ("nginx.ingress.kubernetes.io/affinity", "cookie");
                ("nginx.ingress.kubernetes.io/affinity-mode", "balanced");
                ("nginx.ingress.kubernetes.io/session-cookie-change-on-failure",
                 "true");
                ("nginx.ingress.kubernetes.io/session-cookie-max-age", y);
                ("nginx.ingress.kubernetes.io/session-cookie-name", z);
                ("nginx.ingress.kubernetes.io/session-cookie-samesite", "Lax") ]
       else ∅)
    ∪ (if secret then ∅
       else {[ "nginx.ingress.kubernetes.io/ssl-redirect" := "false" ]}) in
  m !! "nginx.ingress.kubernetes.io/rewrite-target" = Some "/" /\
  m !! "nginx.ingress.kubernetes.io/proxy-body-size" =
    (if big then Some x else None) /\
  m !! "nginx.ingress.kubernetes.io/affinity" =
    (if age then Some "cookie" else None) /\
  m !! "nginx.ingress.kubernetes.io/affinity-mode" =
    (if age then Some "balanced" else None) /\
  m !! "nginx.ingress.kubernetes.io/session-cookie-change-on-failure" =
    (if age then Some "true" else None) /\
  m !! "nginx.ingress.kubernetes.io/session-cookie-max-age" =
    (if age then Some y else None) /\
  m !! "nginx.ingress.kubernetes.io/session-cookie-name" =
    (if age then Some z else None) /\
  m !! "nginx.ingress.kubernetes.io/session-cookie-samesite" =
    (if age then Some "Lax" else None) /\
  m !! "nginx.ingress.kubernetes.io/ssl-redirect" =
    (if secret then None else Some "false") /\
  size m = ((1 + (if big then 1 else 0)) + (if age then 6 else 0) +
            (if secret then 0 else 1))%nat.
Proof.
  destruct big, age, secret; vm_compute; repeat split; reflexivity.
Qed.

Lemma web_declared : declared web_charm.
Proof. repeat constructor; eexists; vm_compute; reflexivity. Defined.

Lemma sticky_declared : declared sticky_charm.
Proof. repeat constructor; eexists; vm_compute; reflexivity. Defined.

Lemma tls_declared : declared tls_charm.
Proof. repeat constructor; eexists; vm_compute; reflexivity. Defined.

Lemma annotations_lookup (c : Charm) (n : string) :
  let m := base_rule
           ∪ body_size_rule (chosen c "max-body-size")
           ∪ sticky_rule (chosen c "session-cookie-max-age") n
           ∪ tls_rule (chosen c "tls-secret-name") in
  let big := truthy (chosen c "max-body-size") in
  let age := truthy (chosen c "session-cookie-max-age") in
  let secret := truthy (chosen c "tls-secret-name") in
  m !! "nginx.ingress.kubernetes.io/rewrite-target" = Some "/" /\
  m !! "nginx.ingress.kubernetes.io/proxy-body-size" =
    (if big then Some (py_str (chosen c "max-body-size") +:+ "m") else None) /\
  m !! "nginx.ingress.kubernetes.io/affinity" =
    (if age then Some "cookie" else None) /\
  m !! "nginx.ingress.kubernetes.io/affinity-mode" =
    (if age then Some "balanced" else None) /\
  m !! "nginx.ingress.kubernetes.io/session-cookie-change-on-failure" =
    (if age then Some "true" else None) /\
  m !! "nginx.ingress.kubernetes.io/session-cookie-max-age" =
    (if age then Some (py_str (chosen c "session-cookie-max-age")) else None) /\
  m !! "nginx.ingress.kubernetes.io/session-cookie-name" =
    (if age then Some (upper n +:+ "_AFFINITY") else None) /\
  m !! "nginx.ingress.kubernetes.io/session-cookie-samesite" =
    (if age then Some "Lax" else None) /\
  m !! "nginx.ingress.kubernetes.io/ssl-redirect" =
    (if secret then None else Some "false") /\
  size m = ((1 + (if big then 1 else 0)) + (if age then 6 else 0) +
            (if secret then 0 else 1))%nat.
Proof.
  exact (rules_lookup (truthy (chosen c "max-body-size"))
           (truthy (chosen c "session-cookie-max-age"))
           (truthy (chosen c "tls-secret-name"))
           (py_str (chosen c "max-body-size") +:+ "m")
           (py_str (chosen c "session-cookie-max-age"))
           (upper n +:+ "_AFFINITY")).
Qed.

(** C5. The built ingress carries exactly one of the two TLS outcomes.  If
    the resolved tls-secret-name is truthy, the spec has a TLS block whose
    host list is the service hostname and whose secret is that name, and
    there is no ssl-redirect annotation; otherwise the annotation
    ssl-redirect is "false" and there is no TLS block. *)
Theorem tls_block_or_ssl_redirect (c : Charm) (n : string) (p : pyval) :
  declared c -> _service_name c = Ok (PStr n) -> _service_port c = Ok p ->
  exists ing,
    _get_k8s_ingress c = Ok ing /\
    _tls_secret_name c = Ok (chosen c "tls-secret-name") /\
    (if truthy (chosen c "tls-secret-name")
     then tls (ing_spec ing) =
            Some {| tls_hosts := [chosen c "service-hostname"];
                    secret_name := chosen c "tls-secret-name" |} /\
          annotations_of ing !! "nginx.ingress.kubernetes.io/ssl-redirect" = None
     else tls (ing_spec ing) = None /\
          annotations_of ing !! "nginx.ingress.kubernetes.io/ssl-redirect" =
            Some "false") /\
    (is_Some (tls (ing_spec ing)) <->
     annotations_of ing !! "nginx.ingress.kubernetes.io/ssl-redirect" = None).
Proof.
  intros Hd Hn Hp. eexists. split; [by apply get_k8s_ingress_run|].
  split; [by apply tls_secret_name_run|].
  destruct (annotations_lookup c n) as (_ & _ & _ & _ & _ & _ & _ & _ & Hssl & _).
  unfold annotations_of. cbn [ing_metadata meta_annotations ing_spec tls].
  rewrite Hssl. unfold tls_block.
  destruct (truthy (chosen c "tls-secret-name")).
  - split; [done|]. split; [done|]. intros _. by eexists.
  - split; [done|]. split; [by intros [? ?]|done].
Qed.

Lemma tls_block_or_ssl_redirect_witness :
  declared tls_charm /\
  _service_name tls_charm = Ok (PStr "web") /\
  _service_port tls_charm = Ok (PInt 8080) /\
  exists ing,
    _get_k8s_ingress tls_charm = Ok ing /\
    tls (ing_spec ing) =
      Some {| tls_hosts := [PStr "web.example.com"]; secret_name := PStr "web-tls" |} /\
    annotations_of ing !! "nginx.ingress.kubernetes.io/ssl-redirect" = None.
Proof.
  split; [exact tls_declared|]. split; [vm_compute; reflexivity|].
  split; [vm_compute; reflexivity|].
  destruct (tls_block_or_ssl_redirect tls_charm "web" (PInt 8080) tls_declared)
    as (ing & Hing & _ & Hcase & _); [vm_compute; reflexivity..|].
  exists ing. split; [exact Hing|]. exact Hcase.
Defined.

(** C6, as amended.  The annotation map of the built ingress is the union of
    the independent rules: rewrite-target "/" always; proxy-body-size, the
    resolved max-body-size followed by "m", exactly when that value is
    truthy; the six sticky-session annotations exactly when the resolved
    session-cookie-max-age is truthy; ssl-redirect "false" exactly when no
    TLS secret is set.  Nothing else is in the map. *)
Theorem annotations_are_additive (c : Charm) (n : string) (p : pyval) :
  declared c -> _service_name c = Ok (PStr n) -> _service_port c = Ok p ->
  exists ing,
    _get_k8s_ingress c = Ok ing /\
    meta_annotations (ing_metadata ing) =
      Some (base_rule
            ∪ body_size_rule (chosen c "max-body-size")
            ∪ sticky_rule (chosen c "session-cookie-max-age") n
            ∪ tls_rule (chosen c "tls-secret-name")) /\
    let big := truthy (chosen c "max-body-size") in
    let age := truthy (chosen c "session-cookie-max-age") in
    let secret := truthy (chosen c "tls-secret-name") in
    let m := annotations_of ing in
    m !! "nginx.ingress.kubernetes.io/rewrite-target" = Some "/" /\
    m !! "nginx.ingress.kubernetes.io/proxy-body-size" =
      (if big then Some (py_str (chosen c "max-body-size") +:+ "m") else None) /\
    m !! "nginx.ingress.kubernetes.io/affinity" =
      (if age then Some "cookie" else None) /\
    m !! "nginx.ingress.kubernetes.io/affinity-mode" =
      (if age then Some "balanced" else None) /\
    m !! "nginx.ingress.kubernetes.io/session-cookie-change-on-failure" =
      (if age then Some "true" else None) /\
    m !! "nginx.ingress.kubernetes.io/session-cookie-max-age" =
      (if age then Some (py_str (chosen c "session-cookie-max-age")) else None) /\
    m !! "nginx.ingress.kubernetes.io/session-cookie-name" =
      (if age then Some (upper n +:+ "_AFFINITY") else None) /\
    m !! "nginx.ingress.kubernetes.io/session-cookie-samesite" =
      (if age then Some "Lax" else None) /\
    m !! "nginx.ingress.kubernetes.io/ssl-redirect" =
      (if secret then None else Some "false") /\
    size m = ((1 + (if big then 1 else 0)) + (if age then 6 else 0) +
              (if secret then 0 else 1))%nat.
Proof.
  intros Hd Hn Hp. eexists. split; [by apply get_k8s_ingress_run|].
  split; [reflexivity|].
  unfold annotations_of. cbn [ing_metadata meta_annotations].
  exact (annotations_lookup c n).
Qed.

Lemma annotations_are_additive_witness :
  declared sticky_charm /\
  _service_name sticky_charm = Ok (PStr "web") /\
  _service_port sticky_charm = Ok (PInt 8080) /\
  exists ing,
    _get_k8s_ingress sticky_charm = Ok ing /\
    annotations_of ing !! "nginx.ingress.kubernetes.io/session-cookie-name" =
      Some "WEB_AFFINITY" /\
    annotations_of ing !! "nginx.ingress.kubernetes.io/proxy-body-size" = None /\
    size (annotations_of ing) = 8%nat.
Proof.
  split; [exact sticky_declared|]. split; [vm_compute; reflexivity|].
  split; [vm_compute; reflexivity|].
  destruct (annotations_are_additive sticky_charm "web" (PInt 8080) sticky_declared)
    as (ing & Hing & _ & _ & Hbody & _ & _ & _ & _ & Hname & _ & _ & Hsize);
    [vm_compute; reflexivity..|].
  exists ing. split; [exact Hing|]. split; [exact Hname|].
  split; [exact Hbody | exact Hsize].
Defined.

(** C6, as stated, fails on the count: setting session-cookie-max-age adds
    six annotations to the map, not five. *)
Lemma sticky_session_adds_six :
  (size ∘ annotations_of) <$> _get_k8s_ingress web_charm = Ok 2%nat /\
  (size ∘ annotations_of) <$> _get_k8s_ingress sticky_charm = Ok 8%nat /\
  size (sticky_rule (PInt 3600) "web") = 6%nat /\
  (size ∘ annotations_of) <$> _get_k8s_ingress sticky_charm <>
  (fun k => (k + 5)%nat) <$> ((size ∘ annotations_of) <$> _get_k8s_ingress web_charm).
Proof.
  repeat split; try (vm_compute; reflexivity).
  vm_compute. discriminate.
Qed.

(** Truthiness is that of the value as it comes: the integer zero of the
    configuration is falsy, but a cached "0" is a non-empty string, so it
    yields the annotation "0m". *)
Example cached_zero_is_a_string :
  _max_body_size (sample_charm web_config true [] ∅) = Ok "" /\
  _max_body_size (sample_charm web_config true [] {[ "max-body-size" := PStr "0" ]})
    = Ok "0m" /\
  _max_body_size (sample_charm web_config true [] {[ "max-body-size" := PStr "20" ]})
    = Ok "20m".
Proof. repeat split; vm_compute; reflexivity. Qed.

(** C7. The service is named after the service name with "-service", the
    ingress with "-ingress", the name being the configured one or else the
    cached one; the service has the single port "tcp-<port>" whose port and
    target port are the resolved port, and the single backend of the
    ingress, under path "/", names that very service and that very port. *)
Theorem backend_matches_service (c : Charm) (n : string) (p : pyval) :
  declared c -> _service_name c = Ok (PStr n) -> _service_port c = Ok p ->
  exists svc ing,
    _get_k8s_service c = Ok svc /\ _get_k8s_ingress c = Ok ing /\
    PStr n = chosen c "service-name" /\
    meta_name (svc_metadata svc) = n +:+ "-service" /\
    meta_name (ing_metadata ing) = n +:+ "-ingress" /\
    ports (svc_spec svc) =
      [ {| port_name := "tcp-" +:+ py_str p; port := p; target_port := p |} ] /\
    rules (ing_spec ing) =
      [ {| host := chosen c "service-hostname";
           http_paths :=
             [ {| path := "/";
                  backend := {| service_port := p;
                                service_name := meta_name (svc_metadata svc) |} |} ]
        |} ] /\
    (forall r h sp, r ∈ rules (ing_spec ing) -> h ∈ http_paths r ->
                    sp ∈ ports (svc_spec svc) ->
                    service_name (backend h) = meta_name (svc_metadata svc) /\
                    service_port (backend h) = port sp /\
                    target_port sp = port sp).
Proof.
  intros Hd Hn Hp. eexists. eexists.
  split; [by apply get_k8s_service_run with (v := PStr n)|].
  split; [by apply get_k8s_ingress_run|].
  split.
  { pose proof (service_name_run c Hd) as E. rewrite Hn in E. congruence. }
  cbn [svc_metadata meta_name ing_metadata svc_spec ports ing_spec rules py_str].
  repeat (split; [reflexivity|]).
  intros r h sp Hr Hh Hsp.
  apply list_elem_of_singleton in Hr as ->. cbn [http_paths] in Hh.
  apply list_elem_of_singleton in Hh as ->.
  apply list_elem_of_singleton in Hsp as ->. auto.
Qed.

Lemma backend_matches_service_witness :
  declared web_charm /\
  _service_name web_charm = Ok (PStr "web") /\
  _service_port web_charm = Ok (PInt 8080) /\
  exists svc ing,
    _get_k8s_service web_charm = Ok svc /\ _get_k8s_ingress web_charm = Ok ing /\
    meta_name (svc_metadata svc) = "web-service" /\
    meta_name (ing_metadata ing) = "web-ingress".
Proof.
  split; [exact web_declared|]. split; [vm_compute; reflexivity|].
  split; [vm_compute; reflexivity|].
  destruct (backend_matches_service web_charm "web" (PInt 8080) web_declared)
    as (svc & ing & Hsvc & Hing & _ & Hs & Hi & _); [vm_compute; reflexivity..|].
  exists svc, ing. auto.
Defined.

(** ** The reconciler *)

Lemma bind_ok {A B} (m : M A) (f : A -> M B) (w w' : World) (a : A) :
  m w = (Ok a, w') -> (m ≫= f) w = f a w'.
Proof. intros H. unfold mbind, M_bind. by rewrite H. Qed.

Lemma same_sources_resolve (c c' : Charm) :
  same_sources c c' ->
  _service_name c = _service_name c' /\
  _service_port c = _service_port c' /\
  _namespace c = _namespace c' /\
  _k8s_service_name c = _k8s_service_name c' /\
  _ingress_name c = _ingress_name c' /\
  _get_k8s_service c = _get_k8s_service c' /\
  _get_k8s_ingress c = _get_k8s_ingress c' /\
  (declared c <-> declared c').
Proof.
  destruct c, c'. intros (H1 & H2 & H3). simpl in H1, H2, H3. subst.
  repeat split; auto.
Qed.

Lemma same_sources_refl (c : Charm) : same_sources c c.
Proof. by repeat split. Qed.

Lemma same_sources_trans (c1 c2 c3 : Charm) :
  same_sources c1 c2 -> same_sources c2 c3 -> same_sources c1 c3.
Proof.
  intros (H1 & H2 & H3) (H4 & H5 & H6). repeat split; congruence.
Qed.

Lemma k8s_auth_run (w : World) :
  declared (charm w) ->
  exists w1, k8s_auth w = (Ok tt, w1) /\
             same_sources (charm w1) (charm w) /\
             authed (charm w1) = true /\
             cluster w1 = cluster w /\
             (authed (charm w) = true -> w1 = w).
Proof.
  intros Hd. unfold k8s_auth, mbind, M_bind, gets. simpl.
  destruct (authed (charm w)) eqn:Ha.
  - exists w. repeat split; auto.
  - unfold prop. simpl. rewrite declared_get by (done || option_name).
    destruct (truthy (default PNone (config (charm w) !! "kube-config")));
      simpl; eexists; (split; [reflexivity|]); repeat split; auto; discriminate.
Qed.

Lemma listed_service_iff (ns : pyval) (name : string) (l : list (pyval * V1Service)) :
  name ∈ (meta_name ∘ svc_metadata) <$> in_namespace ns l <->
  existsb (named_service ns name) l = true.
Proof.
  unfold in_namespace. rewrite existsb_exists. split.
  - intros (x & -> & Hx)%list_elem_of_fmap.
    apply list_elem_of_fmap in Hx as ([ns' x'] & -> & Hin).
    apply list_elem_of_filter in Hin as (Hns & Hin). simpl in *. subst.
    exists (ns, x'). split; [by apply list_elem_of_In|].
    unfold named_service. simpl. rewrite bool_decide_eq_true_2 by done.
    simpl. apply String.eqb_refl.
  - intros ([ns' x'] & Hin & Hnamed). unfold named_service in Hnamed. simpl in Hnamed.
    apply andb_true_iff in Hnamed as (Hns & Hname).
    apply bool_decide_eq_true in Hns. apply String.eqb_eq in Hname. subst.
    apply list_elem_of_fmap. exists x'. split; [done|].
    apply list_elem_of_fmap. exists (ns, x'). split; [done|].
    apply list_elem_of_filter. split; [done|]. by apply list_elem_of_In.
Qed.

Lemma listed_ingress_iff (ns : pyval) (name : string) (l : list (pyval * Ingress)) :
  name ∈ (meta_name ∘ ing_metadata) <$> in_namespace ns l <->
  existsb (named_ingress ns name) l = true.
Proof.
  unfold in_namespace. rewrite existsb_exists. split.
  - intros (x & -> & Hx)%list_elem_of_fmap.
    apply list_elem_of_fmap in Hx as ([ns' x'] & -> & Hin).
    apply list_elem_of_filter in Hin as (Hns & Hin). simpl in *. subst.
    exists (ns, x'). split; [by apply list_elem_of_In|].
    unfold named_ingress. simpl. rewrite bool_decide_eq_true_2 by done.
    simpl. apply String.eqb_refl.
  - intros ([ns' x'] & Hin & Hnamed). unfold named_ingress in Hnamed. simpl in Hnamed.
    apply andb_true_iff in Hnamed as (Hns & Hname).
    apply bool_decide_eq_true in Hns. apply String.eqb_eq in Hname. subst.
    apply list_elem_of_fmap. exists x'. split; [done|].
    apply list_elem_of_fmap. exists (ns, x'). split; [done|].
    apply list_elem_of_filter. split; [done|]. by apply list_elem_of_In.
Qed.

Lemma prop_run {A} (p : Charm -> Res A) (w : World) (a : A) :
  p (charm w) = Ok a -> prop p w = (Ok a, w).
Proof. intros H. unfold prop. by rewrite H. Qed.

Lemma logger_run (l : Level) (msg : string) (w : World) :
  exists w', logger l msg w = (Ok tt, w') /\
             charm w' = charm w /\ cluster w' = cluster w /\ effects w' = effects w.
Proof. eexists. split; [reflexivity|]. auto. Qed.

Lemma list_namespaced_service_run (ns : pyval) (w : World) :
  exists w', list_namespaced_service ns w =
               (Ok (in_namespace ns (services (cluster w))), w') /\
             charm w' = charm w /\ cluster w' = cluster w /\
             effects w' = (effects w ++ [ListNamespacedService ns])%list.
Proof. eexists. split; [reflexivity|]. auto. Qed.

Lemma list_namespaced_ingress_run (ns : pyval) (w : World) :
  exists w', list_namespaced_ingress ns w =
               (Ok (in_namespace ns (ingresses (cluster w))), w') /\
             charm w' = charm w /\ cluster w' = cluster w /\
             effects w' = (effects w ++ [ListNamespacedIngress ns])%list.
Proof. eexists. split; [reflexivity|]. auto. Qed.

Lemma patched_services_listed (ns : pyval) (name : string) (body : V1Service)
    (l : list (pyval * V1Service)) :
  meta_name (svc_metadata body) = name ->
  existsb (named_service ns name) l = true ->
  existsb (named_service ns name)
    ((fun p => if named_service ns name p
               then (ns, with_cluster_ip (cluster_ip (svc_spec p.2)) body)
               else p) <$> l) = true.
Proof.
  intros Hname. induction l as [|x l IH]; simpl; [done|].
  destruct (named_service ns name x) eqn:Hx; simpl.
  - intros _. unfold named_service at 1. simpl.
    rewrite bool_decide_eq_true_2 by done. rewrite Hname, String.eqb_refl. done.
  - rewrite Hx. simpl. exact IH.
Qed.

Lemma patched_ingresses_listed (ns : pyval) (name : string) (body : Ingress)
    (l : list (pyval * Ingress)) :
  meta_name (ing_metadata body) = name ->
  existsb (named_ingress ns name) l = true ->
  existsb (named_ingress ns name)
    ((fun p => if named_ingress ns name p then (ns, body) else p) <$> l) = true.
Proof.
  intros Hname. induction l as [|x l IH]; simpl; [done|].
  destruct (named_ingress ns name x) eqn:Hx; simpl.
  - intros _. unfold named_ingress at 1. simpl.
    rewrite bool_decide_eq_true_2 by done. rewrite Hname, String.eqb_refl. done.
  - rewrite Hx. simpl. exact IH.
Qed.

Lemma patch_namespaced_service_run (name : string) (ns : pyval) (body : V1Service)
    (w : World) :
  meta_name (svc_metadata body) = name ->
  name ∈ listed_services ns (cluster w) ->
  exists w', patch_namespaced_service name ns body w = (Ok tt, w') /\
             charm w' = charm w /\
             effects w' = (effects w ++ [PatchNamespacedService name ns body])%list /\
             name ∈ listed_services ns (cluster w') /\
             ingresses (cluster w') = ingresses (cluster w).
Proof.
  intros Hname Hin. apply listed_service_iff in Hin.
  unfold patch_namespaced_service, mbind, M_bind, emit, gets, set_cluster. simpl.
  rewrite Hin. eexists. split; [reflexivity|]. simpl. repeat split; auto.
  apply listed_service_iff. simpl. by apply patched_services_listed.
Qed.

Lemma create_namespaced_service_run (ns : pyval) (body : V1Service) (w : World) :
  meta_name (svc_metadata body) ∉ listed_services ns (cluster w) ->
  exists w', create_namespaced_service ns body w = (Ok tt, w') /\
             charm w' = charm w /\
             effects w' = (effects w ++ [CreateNamespacedService ns body])%list /\
             meta_name (svc_metadata body) ∈ listed_services ns (cluster w') /\
             ingresses (cluster w') = ingresses (cluster w).
Proof.
  intros Hnot. unfold listed_services in Hnot. rewrite listed_service_iff in Hnot.
  apply not_true_is_false in Hnot.
  unfold create_namespaced_service, mbind, M_bind, emit, gets, set_cluster. simpl.
  rewrite Hnot. eexists. split; [reflexivity|]. simpl. repeat split; auto.
  apply listed_service_iff. simpl. rewrite existsb_app. simpl.
  unfold named_service at 2. simpl. rewrite bool_decide_eq_true_2 by done.
  rewrite String.eqb_refl. simpl. apply orb_true_r.
Qed.

Lemma patch_namespaced_ingress_run (name : string) (ns : pyval) (body : Ingress)
    (w : World) :
  meta_name (ing_metadata body) = name ->
  name ∈ listed_ingresses ns (cluster w) ->
  exists w', patch_namespaced_ingress name ns body w = (Ok tt, w') /\
             charm w' = charm w /\
             effects w' = (effects w ++ [PatchNamespacedIngress name ns body])%list /\
             name ∈ listed_ingresses ns (cluster w') /\
             services (cluster w') = services (cluster w).
Proof.
  intros Hname Hin. apply listed_ingress_iff in Hin.
  unfold patch_namespaced_ingress, mbind, M_bind, emit, gets, set_cluster. simpl.
  rewrite Hin. eexists. split; [reflexivity|]. simpl. repeat split; auto.
  apply listed_ingress_iff. simpl. by apply patched_ingresses_listed.
Qed.

Lemma create_namespaced_ingress_run (ns : pyval) (body : Ingress) (w : World) :
  meta_name (ing_metadata body) ∉ listed_ingresses ns (cluster w) ->
  exists w', create_namespaced_ingress ns body w = (Ok tt, w') /\
             charm w' = charm w /\
             effects w' = (effects w ++ [CreateNamespacedIngress ns body])%list /\
             meta_name (ing_metadata body) ∈ listed_ingresses ns (cluster w') /\
             services (cluster w') = services (cluster w).
Proof.
  intros Hnot. unfold listed_ingresses in Hnot. rewrite listed_ingress_iff in Hnot.
  apply not_true_is_false in Hnot.
  unfold create_namespaced_ingress, mbind, M_bind, emit, gets, set_cluster. simpl.
  rewrite Hnot. eexists. split; [reflexivity|]. simpl. repeat split; auto.
  apply listed_ingress_iff. simpl. rewrite existsb_app. simpl.
  unfold named_ingress at 2. simpl. rewrite bool_decide_eq_true_2 by done.
  rewrite String.eqb_refl. simpl. apply orb_true_r.
Qed.

Ltac step H := rewrite (bind_ok _ _ _ _ _ H).

Lemma define_service_run (w : World) (v p : pyval) :
  declared (charm w) -> _service_name (charm w) = Ok v ->
  _service_port (charm w) = Ok p ->
  exists body ns w',
    _get_k8s_service (charm w) = Ok body /\
    _namespace (charm w) = Ok ns /\
    meta_name (svc_metadata body) = py_str v +:+ "-service" /\
    _define_service w = (Ok tt, w') /\
    effects w' =
      (effects (k8s_auth w).2 ++
       [ ListNamespacedService ns;
         if bool_decide (meta_name (svc_metadata body) ∈ listed_services ns (cluster w))
         then PatchNamespacedService (meta_name (svc_metadata body)) ns body
         else CreateNamespacedService ns body ])%list /\
    same_sources (charm w') (charm w) /\
    authed (charm w') = true /\
    meta_name (svc_metadata body) ∈ listed_services ns (cluster w') /\
    ingresses (cluster w') = ingresses (cluster w).
Proof.
  intros Hd Hn Hp.
  destruct (k8s_auth_run w Hd) as (w1 & Hauth & Hsame & Hauthed & Hk & _).
  destruct (same_sources_resolve _ _ Hsame) as (En & Ep & Ens & Eksn & _ & Esvc & _ & _).
  pose proof (get_k8s_service_run _ v p Hn Hp) as Hbody.
  pose proof (namespace_run _ Hd) as Hns.
  pose proof (k8s_service_name_run _ v Hn) as Hksn.
  match type of Hbody with _ = Ok ?b => set (body := b) in * end.
  match type of Hns with _ = Ok ?x => set (ns := x) in * end.
  assert (Hname : meta_name (svc_metadata body) = py_str v +:+ "-service")
    by reflexivity.
  exists body, ns.
  cut (exists w', _define_service w = (Ok tt, w') /\
         effects w' =
           (effects w1 ++
            [ ListNamespacedService ns;
              if bool_decide (py_str v +:+ "-service" ∈ listed_services ns (cluster w))
              then PatchNamespacedService (py_str v +:+ "-service") ns body
              else CreateNamespacedService ns body ])%list /\
         same_sources (charm w') (charm w) /\
         authed (charm w') = true /\
         py_str v +:+ "-service" ∈ listed_services ns (cluster w') /\
         ingresses (cluster w') = ingresses (cluster w)).
  { intros (w' & H). exists w'. rewrite Hauth, Hname. cbn [snd]. auto. }
  clear Hname.
  unfold _define_service. step Hauth.
  rewrite <- Esvc in Hbody. step (prop_run _ _ _ Hbody).
  rewrite <- Ens in Hns. step (prop_run _ _ _ Hns).
  destruct (list_namespaced_service_run ns w1) as (w2 & Hlist & Hc2 & Hk2 & He2).
  step Hlist.
  rewrite <- Eksn, <- Hc2 in Hksn. step (prop_run _ _ _ Hksn).
  rewrite <- En, <- Hc2 in Hn.
  fold (listed_services ns (cluster w1)).
  rewrite <- Hk, <- Hk2.
  destruct (decide (py_str v +:+ "-service" ∈ listed_services ns (cluster w2)))
    as [Hin|Hnot].
  - rewrite !bool_decide_eq_true_2 by done.
    destruct (patch_namespaced_service_run (py_str v +:+ "-service") ns body w2
                eq_refl Hin) as (w3 & Hpatch & Hc3 & He3 & Hl3 & Hi3).
    step Hpatch. rewrite <- Hc3 in Hn. step (prop_run _ _ _ Hn).
    destruct (logger_run INFO
                ("Service updated in namespace " +:+ py_str ns +:+
                 " with name " +:+ py_str v) w3) as (w4 & Hlog & Hc4 & Hk4 & He4).
    rewrite Hlog. exists w4. rewrite Hk4, He4, Hc4, He3, He2, Hc3, Hc2, Hi3, Hk2, Hk.
    rewrite <- app_assoc. repeat split; try done; apply Hsame.
  - rewrite !bool_decide_eq_false_2 by done.
    destruct (create_namespaced_service_run ns body w2 Hnot)
      as (w3 & Hcreate & Hc3 & He3 & Hl3 & Hi3).
    step Hcreate. rewrite <- Hc3 in Hn. step (prop_run _ _ _ Hn).
    destruct (logger_run INFO
                ("Service created in namespace " +:+ py_str ns +:+
                 " with name " +:+ py_str v) w3) as (w4 & Hlog & Hc4 & Hk4 & He4).
    rewrite Hlog. exists w4. rewrite Hk4, He4, Hc4, He3, He2, Hc3, Hc2, Hi3, Hk2, Hk.
    rewrite <- app_assoc. repeat split; try done; apply Hsame.
Qed.

Lemma define_ingress_run (w : World) (n : string) (p : pyval) :
  declared (charm w) -> _service_name (charm w) = Ok (PStr n) ->
  _service_port (charm w) = Ok p ->
  exists body ns w',
    _get_k8s_ingress (charm w) = Ok body /\
    _namespace (charm w) = Ok ns /\
    meta_name (ing_metadata body) = n +:+ "-ingress" /\
    _define_ingress w = (Ok tt, w') /\
    effects w' =
      (effects (k8s_auth w).2 ++
       [ ListNamespacedIngress ns;
         if bool_decide (meta_name (ing_metadata body) ∈ listed_ingresses ns (cluster w))
         then PatchNamespacedIngress (meta_name (ing_metadata body)) ns body
         else CreateNamespacedIngress ns body ])%list /\
    same_sources (charm w') (charm w) /\
    authed (charm w') = true /\
    meta_name (ing_metadata body) ∈ listed_ingresses ns (cluster w') /\
    services (cluster w') = services (cluster w).
Proof.
  intros Hd Hn Hp.
  destruct (k8s_auth_run w Hd) as (w1 & Hauth & Hsame & Hauthed & Hk & _).
  destruct (same_sources_resolve _ _ Hsame) as (En & Ep & Ens & _ & Ein & _ & Eing & _).
  pose proof (get_k8s_ingress_run _ n p Hd Hn Hp) as Hbody.
  pose proof (namespace_run _ Hd) as Hns.
  pose proof (ingress_name_run _ _ Hn) as Hin0. cbn [py_str] in Hin0.
  match type of Hbody with _ = Ok ?b => set (body := b) in * end.
  match type of Hns with _ = Ok ?x => set (ns := x) in * end.
  assert (Hname : meta_name (ing_metadata body) = n +:+ "-ingress") by reflexivity.
  exists body, ns.
  cut (exists w', _define_ingress w = (Ok tt, w') /\
         effects w' =
           (effects w1 ++
            [ ListNamespacedIngress ns;
              if bool_decide (n +:+ "-ingress" ∈ listed_ingresses ns (cluster w))
              then PatchNamespacedIngress (n +:+ "-ingress") ns body
              else CreateNamespacedIngress ns body ])%list /\
         same_sources (charm w') (charm w) /\
         authed (charm w') = true /\
         n +:+ "-ingress" ∈ listed_ingresses ns (cluster w') /\
         services (cluster w') = services (cluster w)).
  { intros (w' & H). exists w'. rewrite Hauth, Hname. cbn [snd]. auto. }
  clear Hname.
  unfold _define_ingress. step Hauth.
  rewrite <- Eing in Hbody. step (prop_run _ _ _ Hbody).
  rewrite <- Ens in Hns. step (prop_run _ _ _ Hns).
  destruct (list_namespaced_ingress_run ns w1) as (w2 & Hlist & Hc2 & Hk2 & He2).
  step Hlist.
  rewrite <- Ein, <- Hc2 in Hin0. step (prop_run _ _ _ Hin0).
  rewrite <- En, <- Hc2 in Hn.
  fold (listed_ingresses ns (cluster w1)).
  rewrite <- Hk, <- Hk2.
  destruct (decide (n +:+ "-ingress" ∈ listed_ingresses ns (cluster w2)))
    as [Hin|Hnot].
  - rewrite !bool_decide_eq_true_2 by done.
    destruct (patch_namespaced_ingress_run (n +:+ "-ingress") ns body w2
                eq_refl Hin) as (w3 & Hpatch & Hc3 & He3 & Hl3 & Hi3).
    step Hpatch. rewrite <- Hc3 in Hn. step (prop_run _ _ _ Hn).
    destruct (logger_run INFO
                ("Ingress updated in namespace " +:+ py_str ns +:+
                 " with name " +:+ py_str (PStr n)) w3)
      as (w4 & Hlog & Hc4 & Hk4 & He4).
    rewrite Hlog. exists w4. rewrite Hk4, He4, Hc4, He3, He2, Hc3, Hc2, Hi3, Hk2, Hk.
    rewrite <- app_assoc. repeat split; try done; apply Hsame.
  - rewrite !bool_decide_eq_false_2 by done.
    destruct (create_namespaced_ingress_run ns body w2 Hnot)
      as (w3 & Hcreate & Hc3 & He3 & Hl3 & Hi3).
    step Hcreate. rewrite <- Hc3 in Hn. step (prop_run _ _ _ Hn).
    destruct (logger_run INFO
                ("Ingress created in namespace " +:+ py_str ns +:+
                 " with name " +:+ py_str (PStr n)) w3)
      as (w4 & Hlog & Hc4 & Hk4 & He4).
    rewrite Hlog. exists w4. rewrite Hk4, He4, Hc4, He3, He2, Hc3, Hc2, Hi3, Hk2, Hk.
    rewrite <- app_assoc. repeat split; try done; apply Hsame.
Qed.

Lemma k8s_auth_again (w : World) :
  declared (charm w) -> authed (charm w) = true -> (k8s_auth w).2 = w.
Proof.
  intros Hd Ha. destruct (k8s_auth_run w Hd) as (w1 & Hauth & _ & _ & _ & Hw).
  rewrite Hauth. simpl. auto.
Qed.

(** One reconcile: the two flows after one another, then a second one on
    the cluster the first has left. *)
Lemma reconcile_twice (w : World) (n : string) (p : pyval)
    (svc : V1Service) (ing : Ingress) (ns : pyval) :
  declared (charm w) -> _service_name (charm w) = Ok (PStr n) ->
  _service_port (charm w) = Ok p ->
  _get_k8s_service (charm w) = Ok svc -> _get_k8s_ingress (charm w) = Ok ing ->
  _namespace (charm w) = Ok ns ->
  exists w2 w4,
    (_define_service;; _define_ingress) w = (Ok tt, w2) /\
    (_define_service;; _define_ingress) w2 = (Ok tt, w4) /\
    effects w4 =
      (effects w2 ++
       [ ListNamespacedService ns;
         PatchNamespacedService (meta_name (svc_metadata svc)) ns svc;
         ListNamespacedIngress ns;
         PatchNamespacedIngress (meta_name (ing_metadata ing)) ns ing ])%list.
Proof.
  intros Hd Hn Hp Hsvc Hing Hns.
  (* first run *)
  destruct (define_service_run w _ p Hd Hn Hp)
    as (svc1 & ns1 & w1 & Hs1 & Hn1 & _ & Hrun1 & _ & Hsame1 & Ha1 & Hl1 & Hi1).
  assert (svc1 = svc) as -> by congruence. assert (ns1 = ns) as -> by congruence.
  destruct (same_sources_resolve _ _ Hsame1)
    as (En1 & Ep1 & Ens1 & _ & _ & Esvc1 & Eing1 & Ed1).
  assert (Hd1 : declared (charm w1)) by (by apply Ed1).
  rewrite <- En1 in Hn. rewrite <- Ep1 in Hp.
  destruct (define_ingress_run w1 n p Hd1 Hn Hp)
    as (ing2 & ns2 & w2 & Hg2 & Hn2 & _ & Hrun2 & _ & Hsame2 & Ha2 & Hl2 & Hi2).
  assert (ing2 = ing) as -> by congruence. assert (ns2 = ns) as -> by congruence.
  assert (Hl1' : meta_name (svc_metadata svc) ∈ listed_services ns (cluster w2)).
  { unfold listed_services in *. by rewrite Hi2. }
  (* second run *)
  destruct (same_sources_resolve _ _ Hsame2)
    as (En2 & Ep2 & Ens2 & _ & _ & Esvc2 & Eing2 & Ed2).
  assert (Hd2 : declared (charm w2)) by (by apply Ed2).
  rewrite <- En2 in Hn. rewrite <- Ep2 in Hp.
  destruct (define_service_run w2 _ p Hd2 Hn Hp)
    as (svc3 & ns3 & w3 & Hs3 & Hn3 & _ & Hrun3 & He3 & Hsame3 & Ha3 & Hl3 & Hi3).
  assert (svc3 = svc) as -> by congruence. assert (ns3 = ns) as -> by congruence.
  rewrite (k8s_auth_again w2 Hd2 Ha2) in He3.
  rewrite bool_decide_eq_true_2 in He3 by done.
  destruct (same_sources_resolve _ _ Hsame3)
    as (En3 & Ep3 & Ens3 & _ & _ & Esvc3 & Eing3 & Ed3).
  assert (Hd3 : declared (charm w3)) by (by apply Ed3).
  rewrite <- En3 in Hn. rewrite <- Ep3 in Hp.
  destruct (define_ingress_run w3 n p Hd3 Hn Hp)
    as (ing4 & ns4 & w4 & Hg4 & Hn4 & _ & Hrun4 & He4 & Hsame4 & Ha4 & Hl4 & Hi4).
  assert (ing4 = ing) as -> by congruence. assert (ns4 = ns) as -> by congruence.
  rewrite (k8s_auth_again w3 Hd3 Ha3) in He4.
  assert (Hl2' : meta_name (ing_metadata ing) ∈ listed_ingresses ns (cluster w3)).
  { unfold listed_ingresses in *. by rewrite Hi3. }
  rewrite bool_decide_eq_true_2 in He4 by done.
  exists w2, w4. split; [|split].
  - step Hrun1. exact Hrun2.
  - step Hrun3. exact Hrun4.
  - rewrite He4, He3, <- app_assoc. reflexivity.
Qed.

(** C4. Each flow asks for the existing resources of its kind in the
    target namespace and then issues one call: a patch with the freshly
    built body when the deterministic name is in the listing, a create
    otherwise.  Running both flows again on the cluster the first
    reconcile has left issues the two listings and two patches, and no
    create. *)
Theorem create_or_patch (w : World) (n : string) (p : pyval) :
  declared (charm w) -> _service_name (charm w) = Ok (PStr n) ->
  _service_port (charm w) = Ok p ->
  exists svc ing ns,
    _get_k8s_service (charm w) = Ok svc /\
    _get_k8s_ingress (charm w) = Ok ing /\
    _namespace (charm w) = Ok ns /\
    meta_name (svc_metadata svc) = n +:+ "-service" /\
    meta_name (ing_metadata ing) = n +:+ "-ingress" /\
    (exists w1,
       _define_service w = (Ok tt, w1) /\
       effects w1 =
         (effects (k8s_auth w).2 ++
          [ ListNamespacedService ns;
            if bool_decide (meta_name (svc_metadata svc) ∈
                            listed_services ns (cluster w))
            then PatchNamespacedService (meta_name (svc_metadata svc)) ns svc
            else CreateNamespacedService ns svc ])%list) /\
    (exists w1,
       _define_ingress w = (Ok tt, w1) /\
       effects w1 =
         (effects (k8s_auth w).2 ++
          [ ListNamespacedIngress ns;
            if bool_decide (meta_name (ing_metadata ing) ∈
                            listed_ingresses ns (cluster w))
            then PatchNamespacedIngress (meta_name (ing_metadata ing)) ns ing
            else CreateNamespacedIngress ns ing ])%list) /\
    (exists w2 w4,
       (_define_service;; _define_ingress) w = (Ok tt, w2) /\
       (_define_service;; _define_ingress) w2 = (Ok tt, w4) /\
       effects w4 =
         (effects w2 ++
          [ ListNamespacedService ns;
            PatchNamespacedService (meta_name (svc_metadata svc)) ns svc;
            ListNamespacedIngress ns;
            PatchNamespacedIngress (meta_name (ing_metadata ing)) ns ing ])%list).
Proof.
  intros Hd Hn Hp.
  destruct (define_service_run w _ p Hd Hn Hp)
    as (svc & ns & w1 & Hs & Hns & Hsname & Hrun1 & He1 & _).
  destruct (define_ingress_run w n p Hd Hn Hp)
    as (ing & ns' & w1' & Hg & Hns' & Hiname & Hrun1' & He1' & _).
  assert (ns' = ns) as -> by congruence.
  exists svc, ing, ns. repeat (split; [done|]).
  split; [by exists w1|]. split; [by exists w1'|].
  by apply (reconcile_twice w n p).
Qed.

Lemma create_or_patch_witness :
  declared (charm (sample_world web_charm)) /\
  _service_name (charm (sample_world web_charm)) = Ok (PStr "web") /\
  _service_port (charm (sample_world web_charm)) = Ok (PInt 8080) /\
  exists w2 w4,
    (_define_service;; _define_ingress) (sample_world web_charm) = (Ok tt, w2) /\
    (_define_service;; _define_ingress) w2 = (Ok tt, w4) /\
    filter (fun e => is_create e = true) (effects w2) <> [] /\
    exists svc ing,
      effects w4 =
        (effects w2 ++
         [ ListNamespacedService (PStr "ingress-model");
           PatchNamespacedService "web-service" (PStr "ingress-model") svc;
           ListNamespacedIngress (PStr "ingress-model");
           PatchNamespacedIngress "web-ingress" (PStr "ingress-model") ing ])%list.
Proof.
  split; [exact web_declared|]. split; [vm_compute; reflexivity|].
  split; [vm_compute; reflexivity|].
  destruct (create_or_patch (sample_world web_charm) "web" (PInt 8080) web_declared)
    as (svc & ing & ns & _ & _ & Hns & Hs & Hi & _ & _ & w2 & w4 & H2 & H4 & He);
    [vm_compute; reflexivity..|].
  exists w2, w4. split; [exact H2|]. split; [exact H4|].
  assert (ns = PStr "ingress-model") as ->.
  { vm_compute in Hns. congruence. }
  split.
  - vm_compute in H2. injection H2 as <-. vm_compute. discriminate.
  - exists svc, ing. rewrite He, Hs, Hi. reflexivity.
Defined.

(** ** Upgrade *)

Lemma other_groups_run (groups : list (list Relation)) :
  Forall not_ingress groups ->
  forall w, exists w',
    _get_ingress_relation_data_from groups w = (Ok tt, w') /\
    charm w' = charm w /\ cluster w' = cluster w /\ effects w' = effects w.
Proof.
  induction 1 as [|group rest Hg _ IH]; intros w; simpl.
  - by exists w.
  - destruct group as [|relation more]; [apply IH|].
    destruct (warn_if_multiple_run relation more w) as (w1 & Hw1 & Hk1 & He1 & Hc1).
    step Hw1. simpl in Hg. apply String.eqb_neq in Hg. rewrite Hg.
    destruct (IH w1) as (w' & Hrun & Hc & Hk & He).
    exists w'. split; [done|]. by rewrite Hc, Hk, He.
Qed.

Lemma complete_not_missing (bag : gmap string string) :
  complete bag -> missing_required (PStr <$> bag) = [].
Proof.
  unfold complete, missing_required, required_alphabetical. intros Hall.
  apply Forall_cons in Hall as ([v1 H1] & Hall).
  apply Forall_cons in Hall as ([v2 H2] & Hall).
  apply Forall_cons in Hall as ([v3 H3] & _).
  rewrite !filter_cons, filter_nil, !bag_get, H1, H2, H3. reflexivity.
Qed.

Lemma get_ingress_relation_data_resync (w : World) (pre post : list (list Relation))
    (relation : Relation) (more : list Relation) :
  relations (charm w) = (pre ++ (relation :: more) :: post)%list ->
  Forall not_ingress pre -> Forall not_ingress post ->
  rel_name relation = "ingress" -> complete (rel_data relation) ->
  exists w',
    _get_ingress_relation_data w = (Ok tt, w') /\
    charm w' = set_stored (PStr <$> rel_data relation) (charm w) /\
    cluster w' = cluster w /\ effects w' = effects w.
Proof.
  intros Hrel Hpre Hpost Hname Hcomplete.
  unfold _get_ingress_relation_data, mbind, M_bind, gets. simpl. rewrite Hrel.
  clear Hrel. revert w. induction Hpre as [|group pre Hg _ IH]; intros w; simpl.
  - destruct (warn_if_multiple_run relation more w) as (w1 & Hw1 & Hk1 & He1 & Hc1).
    step Hw1. rewrite Hname. simpl.
    unfold mbind, M_bind. rewrite ingress_relation_errors_run.
    rewrite (complete_not_missing _ Hcomplete). unfold update_charm.
    destruct (other_groups_run post Hpost
                (set_charm (set_stored (PStr <$> rel_data relation) (charm w1)) w1))
      as (w' & Hrun & Hc & Hk & He).
    exists w'. split; [exact Hrun|]. rewrite Hc, Hk, He. simpl.
    by rewrite Hc1, Hk1, He1.
  - destruct group as [|r0 m0]; [apply IH|].
    destruct (warn_if_multiple_run r0 m0 w) as (w1 & Hw1 & Hk1 & He1 & Hc1).
    step Hw1. simpl in Hg. apply String.eqb_neq in Hg. rewrite Hg.
    destruct (IH w1) as (w' & Hrun & Hc & Hk & He).
    exists w'. split; [exact Hrun|]. by rewrite Hc, Hk, He, Hc1, Hk1, He1.
Qed.

Lemma elem_of_fields (a : attribute) :
  key a ∈ REQUIRED_INGRESS_RELATION_FIELDS ∪ OPTIONAL_INGRESS_RELATION_FIELDS.
Proof.
  unfold REQUIRED_INGRESS_RELATION_FIELDS, OPTIONAL_INGRESS_RELATION_FIELDS.
  destruct a; simpl; set_solver.
Qed.

Lemma resolve_same (c c' : Charm) :
  config c = config c' -> model_name c = model_name c' ->
  (forall a, stored_get c (key a) = stored_get c' (key a)) ->
  forall a, resolve a c = resolve a c'.
Proof.
  intros Hcfg Hmodel Hget a.
  pose proof (Hget a) as Ha.
  destruct a; simpl in Ha |- *;
    unfold _service_hostname, _service_name, _service_port, _namespace,
      _max_body_size, _session_cookie_max_age, _tls_secret_name, config_get;
    rewrite Hcfg, Ha, ?Hmodel; reflexivity.
Qed.

(** C9, as amended.  The upgrade handler does not read the cache: it reads
    the live ingress relation.  When that relation's bag has every required
    field, the handler stores it, whatever the cache held before (also the
    empty cache of a reset), and every attribute then resolves exactly as it
    does from the payload a relation-changed event would have cached for
    the same bag.  No relation-changed event is needed and no cluster call
    is made; the reconcile itself is left to the config-changed event. *)
Theorem upgrade_resyncs_from_relation (w : World) (pre post : list (list Relation))
    (relation : Relation) (more : list Relation) :
  relations (charm w) = (pre ++ (relation :: more) :: post)%list ->
  Forall not_ingress pre -> Forall not_ingress post ->
  rel_name relation = "ingress" -> complete (rel_data relation) ->
  exists w',
    _on_upgrade_charm w = (Ok tt, w') /\
    ingress_relation_data (charm w') = PStr <$> rel_data relation /\
    (forall a,
       resolve a (charm w') =
       resolve a (set_stored (event_payload (rel_data relation)) (charm w))) /\
    config (charm w') = config (charm w) /\
    status (charm w') = status (charm w) /\
    cluster w' = cluster w /\ effects w' = effects w.
Proof.
  intros Hrel Hpre Hpost Hname Hcomplete.
  destruct (get_ingress_relation_data_resync w pre post relation more
              Hrel Hpre Hpost Hname Hcomplete) as (w' & Hrun & Hc & Hk & He).
  exists w'. split; [exact Hrun|]. rewrite Hc. split; [reflexivity|].
  split; [|auto].
  apply resolve_same; [reflexivity..|].
  intros a. unfold stored_get. simpl.
  rewrite bag_get, event_payload_get by apply elem_of_fields. reflexivity.
Qed.

Lemma upgrade_resyncs_from_relation_witness :
  relations (charm upgraded_world) = ([] ++ [ingress_relation web_bag] :: [])%list /\
  complete web_bag /\
  ingress_relation_data (charm upgraded_world) = ∅ /\
  exists w',
    _on_upgrade_charm upgraded_world = (Ok tt, w') /\
    resolve ServiceHostname (charm w') = Ok (PStr "web.example.com") /\
    resolve ServicePort (charm w') = Ok (PInt 8080) /\
    effects w' = [].
Proof.
  assert (Hc : complete web_bag)
    by (repeat constructor; eexists; vm_compute; reflexivity).
  split; [reflexivity|]. split; [exact Hc|]. split; [reflexivity|].
  destruct (upgrade_resyncs_from_relation upgraded_world [] []
              (ingress_relation web_bag) [])
    as (w' & Hrun & _ & Hres & _ & _ & _ & He);
    [reflexivity | constructor | constructor | reflexivity | exact Hc |].
  exists w'. split; [exact Hrun|].
  rewrite !Hres. split; [vm_compute; reflexivity|].
  split; [vm_compute; reflexivity | exact He].
Defined.

(** C9, as stated, fails: with a valid payload in the cache and no option
    set, an upgrade does not reproduce the cached state when the remote
    application has published other data in the meantime; the cache is
    overwritten from the relation. *)
Lemma upgrade_overwrites_cache :
  config (charm stale_world) = default_config /\
  ingress_relation_data (charm stale_world) = event_payload web_bag /\
  missing_required (ingress_relation_data (charm stale_world)) = [] /\
  resolve ServiceHostname (charm stale_world) = Ok (PStr "web.example.com") /\
  (_on_upgrade_charm stale_world).1 = Ok tt /\
  resolve ServiceHostname (charm (_on_upgrade_charm stale_world).2) =
    Ok (PStr "api.example.com") /\
  resolve ServiceHostname (charm (_on_upgrade_charm stale_world).2) <>
    resolve ServiceHostname (charm stale_world).
Proof.
  repeat split; try (vm_compute; reflexivity).
  vm_compute. discriminate.
Qed.

(** * Further properties of the handlers *)

(** ** Stability under sequencing *)

Section Stable.
Variable R : World -> World -> Prop.
Hypothesis R_refl : forall w, R w w.
Hypothesis R_trans : forall w1 w2 w3, R w1 w2 -> R w2 w3 -> R w1 w3.

Lemma stable_ret {A} (a : A) : stable R (mret a : M A).
Proof. intros w. apply R_refl. Qed.

Lemma stable_bind {A B} (m : M A) (f : A -> M B) :
  stable R m -> (forall a, stable R (f a)) -> stable R (m ≫= f).
Proof.
  intros Hm Hf w. unfold mbind, M_bind. pose proof (Hm w) as H1.
  destruct (m w) as [[a|e] w1]; simpl in *; [|exact H1].
  eapply R_trans; [exact H1 | apply Hf].
Qed.

Lemma stable_gets {A} (f : World -> A) : stable R (gets f).
Proof. intros w. apply R_refl. Qed.

Lemma stable_prop {A} (p : Charm -> Res A) : stable R (prop p).
Proof. intros w. apply R_refl. Qed.

Lemma stable_raise {A} (e : exn) : stable R (raise e : M A).
Proof. intros w. apply R_refl. Qed.

Lemma stable_try_pure {A} (r : Res A) : stable R (try_pure r).
Proof. intros w. apply R_refl. Qed.
End Stable.

Lemma kept_refl (w : World) : kept w w.
Proof. by repeat split. Qed.

Lemma kept_trans (w1 w2 w3 : World) : kept w1 w2 -> kept w2 w3 -> kept w1 w3.
Proof.
  intros (A1 & A2 & A3 & A4 & A5) (B1 & B2 & B3 & B4 & B5).
  repeat split; congruence.
Qed.

Lemma status_kept_refl (w : World) : status_kept w w.
Proof. reflexivity. Qed.

Lemma status_kept_trans (w1 w2 w3 : World) :
  status_kept w1 w2 -> status_kept w2 w3 -> status_kept w1 w3.
Proof. unfold status_kept. congruence. Qed.

Lemma cluster_kept_refl (w : World) : cluster_kept w w.
Proof. by split. Qed.

Lemma cluster_kept_trans (w1 w2 w3 : World) :
  cluster_kept w1 w2 -> cluster_kept w2 w3 -> cluster_kept w1 w3.
Proof. intros (A1 & A2) (B1 & B2). split; congruence. Qed.

(** One tactic for the three frames: split the computation at its binds and
    branches, and close the primitive steps by computation. *)
Ltac frame refl trans :=
  repeat lazymatch goal with
    | |- stable _ (mbind _ _) => apply (stable_bind _ trans); [|intros ?]
    | |- stable _ (mret _) => apply (stable_ret _ refl)
    | |- stable _ (gets _) => apply (stable_gets _ refl)
    | |- stable _ (prop _) => apply (stable_prop _ refl)
    | |- stable _ (raise _) => apply (stable_raise _ refl)
    | |- stable _ (try_pure _) => apply (stable_try_pure _ refl)
    | |- stable _ (if ?b then _ else _) => destruct b
    | |- stable _ (match ?x with _ => _ end) => destruct x
    | |- stable _ (let _ := _ in _) => cbv zeta
    end.

Ltac primitive :=
  intros ?; unfold kept, status_kept, cluster_kept; simpl;
  rewrite ?filter_app, ?filter_cons, ?filter_nil; simpl;
  rewrite ?app_nil_r; auto.

Ltac unfold_api :=
  unfold k8s_auth, list_namespaced_service, list_namespaced_ingress,
    create_namespaced_service, create_namespaced_ingress,
    patch_namespaced_service, patch_namespaced_ingress.

Lemma k8s_auth_kept : stable kept k8s_auth.
Proof. unfold_api. frame kept_refl kept_trans; primitive. Qed.

Lemma k8s_auth_status_kept : stable status_kept k8s_auth.
Proof. unfold_api. frame status_kept_refl status_kept_trans; primitive. Qed.

Lemma k8s_auth_cluster_kept : stable cluster_kept k8s_auth.
Proof. unfold_api. frame cluster_kept_refl cluster_kept_trans; primitive. Qed.

Lemma define_service_kept : stable kept _define_service.
Proof.
  unfold _define_service. unfold_api. frame kept_refl kept_trans; primitive.
Qed.

Lemma define_service_status_kept : stable status_kept _define_service.
Proof.
  unfold _define_service. unfold_api.
  frame status_kept_refl status_kept_trans; primitive.
Qed.

Lemma define_ingress_kept : stable kept _define_ingress.
Proof.
  unfold _define_ingress. unfold_api. frame kept_refl kept_trans; primitive.
Qed.

Lemma define_ingress_status_kept : stable status_kept _define_ingress.
Proof.
  unfold _define_ingress. unfold_api.
  frame status_kept_refl status_kept_trans; primitive.
Qed.

Lemma report_service_ips_kept : stable kept _report_service_ips.
Proof.
  unfold _report_service_ips. unfold_api. frame kept_refl kept_trans; primitive.
Qed.

Lemma report_service_ips_status_kept : stable status_kept _report_service_ips.
Proof.
  unfold _report_service_ips. unfold_api.
  frame status_kept_refl status_kept_trans; primitive.
Qed.

Lemma report_service_ips_cluster_kept : stable cluster_kept _report_service_ips.
Proof.
  unfold _report_service_ips. unfold_api.
  frame cluster_kept_refl cluster_kept_trans; primitive.
Qed.

(** ** The config-changed handler, whatever its outcome *)

Lemma ends_active_bind {A} (m : M A) (f : A -> M unit) :
  stable status_kept m -> (forall a, ends_active (f a)) -> ends_active (m ≫= f).
Proof.
  intros Hm Hf w. unfold mbind, M_bind. pose proof (Hm w) as H1.
  destruct (m w) as [[a|e] w1]; simpl in *; [|exact H1].
  pose proof (Hf a w1) as H2. unfold status_kept in H1.
  destruct (f a w1) as [[u|e] w2]; simpl in *; [exact H2 | congruence].
Qed.

Lemma config_changed_kept : stable kept _on_config_changed.
Proof.
  unfold _on_config_changed.
  frame kept_refl kept_trans;
    first [ apply define_service_kept | apply define_ingress_kept
          | apply report_service_ips_kept | primitive ].
Qed.

Lemma config_changed_ends_active : ends_active _on_config_changed.
Proof.
  unfold _on_config_changed.
  apply ends_active_bind; [apply (stable_gets _ status_kept_refl)|]. intros leader.
  apply ends_active_bind.
  { destruct leader; frame status_kept_refl status_kept_trans. }
  intros named. apply ends_active_bind.
  { destruct named; frame status_kept_refl status_kept_trans;
      first [ apply define_service_status_kept | apply define_ingress_status_kept
            | apply report_service_ips_status_kept ]. }
  intros msg w. simpl. by exists msg.
Qed.

(** X1. Whatever happens in it, the config-changed handler leaves the
    configuration, the cached relation payload, the model name, the
    leadership and the relations as they were; when it returns normally the
    unit status is an active status (also if the unit was blocked before),
    and when it raises the status is the one it started with. *)
Theorem config_changed_outcome (w : World) :
  kept w (_on_config_changed w).2 /\
  match (_on_config_changed w).1 with
  | Ok _ => exists msg, status (charm (_on_config_changed w).2) = ActiveStatus msg
  | Err _ => status (charm (_on_config_changed w).2) = status (charm w)
  end.
Proof. split; [apply config_changed_kept | apply config_changed_ends_active]. Qed.

(** ** Authentication and the report *)

(** X2. Authentication happens once: the first call runs the environment
    workaround and then loads the kube-config written from the option when
    that option is set, the in-cluster configuration otherwise; it sets the
    flag, and any later call does nothing at all. *)
Theorem k8s_auth_once (w : World) (kube_config : pyval) :
  config (charm w) !! "kube-config" = Some kube_config ->
  exists w1,
    k8s_auth w = (Ok tt, w1) /\
    authed (charm w1) = true /\
    effects w1 =
      (effects w ++
       if authed (charm w) then []
       else FixLp1892255 ::
            if truthy kube_config
            then [WriteKubeConfig kube_config; LoadKubeConfig]
            else [LoadInclusterConfig])%list /\
    cluster w1 = cluster w /\
    k8s_auth w1 = (Ok tt, w1).
Proof.
  intros Hkc. apply config_get_some in Hkc.
  unfold k8s_auth, mbind, M_bind, gets, prop. simpl.
  destruct (authed (charm w)) eqn:Ha; simpl.
  - exists w. rewrite Ha, app_nil_r. auto.
  - rewrite Hkc. destruct (truthy kube_config); simpl;
      eexists; (split; [reflexivity|]); simpl; rewrite <- ?app_assoc; auto.
Qed.

Lemma k8s_auth_once_witness :
  config (charm (sample_world web_charm)) !! "kube-config" = Some (PStr "") /\
  exists w1,
    k8s_auth (sample_world web_charm) = (Ok tt, w1) /\
    effects w1 = [FixLp1892255; LoadInclusterConfig] /\
    k8s_auth w1 = (Ok tt, w1).
Proof.
  split; [vm_compute; reflexivity|].
  destruct (k8s_auth_once (sample_world web_charm) (PStr ""))
    as (w1 & H1 & _ & He & _ & H2); [vm_compute; reflexivity|].
  exists w1. split; [exact H1|]. split; [exact He | exact H2].
Defined.

(** X3. The report asks once for the services of the resolved namespace and
    returns the cluster addresses of those named after the service, in the
    order they are listed (none if there is no such service); it changes
    nothing in the cluster. *)
Theorem report_lists_named_services (w : World) :
  declared (charm w) ->
  exists ns w',
    _namespace (charm w) = Ok ns /\
    _report_service_ips w =
      (Ok (service_ips ns (py_str (chosen (charm w) "service-name") +:+ "-service")
             (cluster w)), w') /\
    effects w' = (effects (k8s_auth w).2 ++ [ListNamespacedService ns])%list /\
    cluster w' = cluster w /\
    charm w' = charm (k8s_auth w).2.
Proof.
  intros Hd.
  destruct (k8s_auth_run w Hd) as (w1 & Hauth & Hsame & Hauthed & Hk & _).
  destruct (same_sources_resolve _ _ Hsame) as (En & _ & Ens & Eksn & _).
  pose proof (namespace_run _ Hd) as Hns.
  pose proof (k8s_service_name_run _ _ (service_name_run _ Hd)) as Hksn.
  match type of Hns with _ = Ok ?x => set (ns := x) in * end.
  exists ns. rewrite Hauth. cbn [snd].
  unfold _report_service_ips. step Hauth.
  rewrite <- Ens in Hns. step (prop_run _ _ _ Hns).
  destruct (list_namespaced_service_run ns w1) as (w2 & Hlist & Hc2 & Hk2 & He2).
  step Hlist. unfold service_ips. rewrite <- Hk.
  destruct (in_namespace ns (services (cluster w1))) as [|x items] eqn:Hitems.
  - exists w2. split; [by rewrite <- Ens|]. split; [reflexivity|]. auto.
  - rewrite <- Eksn, <- Hc2 in Hksn. step (prop_run _ _ _ Hksn).
    exists w2. split; [by rewrite <- Ens|]. split; [reflexivity|]. auto.
Qed.

Lemma report_lists_named_services_witness :
  declared (charm (sample_world web_charm)) /\
  exists w',
    _report_service_ips (sample_world web_charm) = (Ok [], w') /\
    cluster w' = empty_cluster.
Proof.
  split; [exact web_declared|].
  destruct (report_lists_named_services (sample_world web_charm) web_declared)
    as (ns & w' & _ & Hrun & _ & Hk & _).
  exists w'. split; [|exact Hk]. rewrite Hrun. reflexivity.
Defined.

(** ** The config-changed handler on the leader *)

(** X4. With no service name from either source, the leader's
    config-changed handler reaches neither the authentication nor the
    cluster: it only sets the active status with an empty message. *)
Theorem config_changed_without_name (w : World) (v : pyval) :
  config (charm w) !! "service-name" = Some v ->
  truthy (py_or v (stored_get (charm w) "service-name")) = false ->
  _on_config_changed w =
  (Ok tt, set_charm (set_status (ActiveStatus "") (charm w)) w).
Proof.
  intros Hv Hfalse. apply config_get_some in Hv.
  unfold _on_config_changed, mbind, M_bind, gets, prop, _service_name. simpl.
  destruct (is_leader (charm w)); [|reflexivity].
  rewrite Hv. simpl. rewrite Hfalse. reflexivity.
Qed.

Lemma config_changed_without_name_witness :
  config (charm leader_world) !! "service-name" = Some (PStr "") /\
  truthy (py_or (PStr "") (stored_get (charm leader_world) "service-name")) = false /\
  effects (_on_config_changed leader_world).2 = [] /\
  status (charm (_on_config_changed leader_world).2) = ActiveStatus "".
Proof.
  split; [vm_compute; reflexivity|]. split; [vm_compute; reflexivity|].
  rewrite (config_changed_without_name leader_world (PStr ""));
    [split; reflexivity | vm_compute; reflexivity | vm_compute; reflexivity].
Defined.

Lemma get_k8s_service_port_error (c : Charm) (v : pyval) (e : exn) :
  _service_name c = Ok v -> _service_port c = Err e -> _get_k8s_service c = Err e.
Proof.
  intros Hn Hp. unfold _get_k8s_service.
  rewrite (k8s_service_name_run c v Hn), Hn, Hp. reflexivity.
Qed.

Lemma bind_err {A B} (m : M A) (f : A -> M B) (w w' : World) (e : exn) :
  m w = (Err e, w') -> (m ≫= f) w = (Err e, w').
Proof. intros H. unfold mbind, M_bind. by rewrite H. Qed.

Lemma gets_run {A} (f : World -> A) (w : World) : gets f w = (Ok (f w), w).
Proof. reflexivity. Qed.

Lemma mret_run {A} (a : A) (w : World) : (mret a : M A) w = (Ok a, w).
Proof. reflexivity. Qed.

Lemma prop_err {A} (p : Charm -> Res A) (w : World) (e : exn) :
  p (charm w) = Err e -> prop p w = (Err e, w).
Proof. intros H. unfold prop. by rewrite H. Qed.

(** On the leader, with a service name, the handler is the reconcile
    followed by the status. *)
Lemma config_changed_leader (w : World) (v : pyval) :
  is_leader (charm w) = true -> _service_name (charm w) = Ok v -> truthy v = true ->
  _on_config_changed w =
  ((_define_service;;
    _define_ingress;;
    ips ← _report_service_ips;
    joined ← try_pure (py_join ", " ips);
    mret ("Ingress with service IP(s): " +:+ joined))
   ≫= fun msg => update_charm (set_status (ActiveStatus msg))) w.
Proof.
  intros Hl Hn Hv. unfold _on_config_changed.
  step (gets_run (is_leader ∘ charm) w).
  change ((is_leader ∘ charm) w) with (is_leader (charm w)). rewrite Hl.
  step (bind_ok _ (fun app => mret (truthy app)) _ _ _ (prop_run _ _ _ Hn)).
  rewrite Hv. reflexivity.
Qed.

(** X5. When the leader has a service name but the port cannot be resolved
    (nothing configured and nothing usable cached), config-changed raises
    the port's exception right after authenticating: no listing, create or
    patch is issued, the cluster is untouched and the status stays as it
    was. *)
Theorem config_changed_without_port (w : World) (e : exn) :
  declared (charm w) -> is_leader (charm w) = true ->
  truthy (chosen (charm w) "service-name") = true ->
  _service_port (charm w) = Err e ->
  _on_config_changed w = (Err e, (k8s_auth w).2) /\
  cluster (k8s_auth w).2 = cluster w /\
  status (charm (k8s_auth w).2) = status (charm w) /\
  filter (fun x => is_mutation x = true) (effects (k8s_auth w).2) =
  filter (fun x => is_mutation x = true) (effects w).
Proof.
  intros Hd Hl Hname Hport.
  destruct (k8s_auth_cluster_kept w) as (Hk & He).
  pose proof (k8s_auth_status_kept w) as Hs. unfold status_kept in Hs.
  split; [|auto].
  destruct (k8s_auth_run w Hd) as (w1 & Hauth & Hsame & _).
  destruct (same_sources_resolve _ _ Hsame) as (En & Ep & _ & _ & _ & Esvc & _).
  pose proof (service_name_run _ Hd) as Hn.
  rewrite (config_changed_leader w _ Hl Hn Hname).
  rewrite Hauth. cbn [snd].
  apply bind_err. apply bind_err.
  unfold _define_service. step Hauth. apply bind_err. apply prop_err.
  rewrite Esvc. by apply get_k8s_service_port_error with (v := chosen (charm w) "service-name").
Qed.

Lemma config_changed_without_port_witness :
  declared (charm (sample_world
                     (sample_charm (<[ "service-name" := PStr "web" ]> default_config)
                        true [] ∅))) /\
  (_on_config_changed
     (sample_world (sample_charm (<[ "service-name" := PStr "web" ]> default_config)
                      true [] ∅))).1 = Err TypeError.
Proof.
  assert (Hd : declared (charm (sample_world
                  (sample_charm (<[ "service-name" := PStr "web" ]> default_config)
                     true [] ∅))))
    by (repeat constructor; eexists; vm_compute; reflexivity).
  split; [exact Hd|].
  destruct (config_changed_without_port
              (sample_world
                 (sample_charm (<[ "service-name" := PStr "web" ]> default_config)
                    true [] ∅)) TypeError Hd) as (Hrun & _);
    [vm_compute; reflexivity..|].
  rewrite Hrun. reflexivity.
Defined.

(** *** The addresses across a reconcile *)

Lemma service_ips_unlisted (ns : pyval) (name : string) (k : Cluster) :
  name ∉ listed_services ns k -> service_ips ns name k = [].
Proof.
  unfold listed_services, service_ips. intros Hnot.
  induction (in_namespace ns (services k)) as [|x l IH]; [reflexivity|].
  rewrite fmap_cons, not_elem_of_cons in Hnot. destruct Hnot as (Hx & Hl).
  rewrite filter_cons. simpl in Hx. rewrite decide_False by congruence. by apply IH.
Qed.

Lemma patched_service_ips (ns : pyval) (name : string) (body : V1Service)
    (l : list (pyval * V1Service)) :
  meta_name (svc_metadata body) = name ->
  cluster_ip ∘ svc_spec <$>
    filter (fun x => meta_name (svc_metadata x) = name)
      (in_namespace ns
         ((fun p => if named_service ns name p
                    then (ns, with_cluster_ip (cluster_ip (svc_spec p.2)) body)
                    else p) <$> l)) =
  cluster_ip ∘ svc_spec <$>
    filter (fun x => meta_name (svc_metadata x) = name) (in_namespace ns l).
Proof.
  intros Hname. unfold in_namespace.
  induction l as [|[ns' x] l IH]; [reflexivity|].
  rewrite fmap_cons. unfold named_service at 1. cbn [fst snd].
  destruct (decide (ns' = ns)) as [->|Hns].
  - rewrite bool_decide_eq_true_2 by done. cbn [andb].
    destruct (String.eqb_spec (meta_name (svc_metadata x)) name) as [Hx|Hx].
    + rewrite !filter_cons. cbn [fst]. rewrite !decide_True by done.
      rewrite !fmap_cons. cbn [snd]. rewrite !filter_cons.
      rewrite !decide_True by done. rewrite !fmap_cons. f_equal. exact IH.
    + rewrite !filter_cons. cbn [fst]. rewrite !decide_True by done.
      rewrite !fmap_cons. cbn [snd]. rewrite !filter_cons.
      rewrite !decide_False by done. exact IH.
  - rewrite bool_decide_eq_false_2 by done. cbn [andb].
    rewrite !filter_cons. cbn [fst]. rewrite !decide_False by done. exact IH.
Qed.

Lemma patch_namespaced_service_ips (name : string) (ns : pyval) (body : V1Service)
    (w : World) :
  meta_name (svc_metadata body) = name ->
  name ∈ listed_services ns (cluster w) ->
  exists w', patch_namespaced_service name ns body w = (Ok tt, w') /\
             charm w' = charm w /\
             service_ips ns name (cluster w') = service_ips ns name (cluster w).
Proof.
  intros Hname Hin. apply listed_service_iff in Hin.
  unfold patch_namespaced_service, mbind, M_bind, emit, gets, set_cluster. simpl.
  rewrite Hin. eexists. split; [reflexivity|]. split; [reflexivity|].
  unfold service_ips. simpl. by apply patched_service_ips.
Qed.

Lemma create_namespaced_service_ips (ns : pyval) (body : V1Service) (w : World) :
  meta_name (svc_metadata body) ∉ listed_services ns (cluster w) ->
  exists w', create_namespaced_service ns body w = (Ok tt, w') /\
             charm w' = charm w /\
             service_ips ns (meta_name (svc_metadata body)) (cluster w') =
             [assign_ip (cluster w) ns (meta_name (svc_metadata body))].
Proof.
  intros Hnot. pose proof (service_ips_unlisted _ _ _ Hnot) as Hnil.
  unfold listed_services in Hnot. rewrite listed_service_iff in Hnot.
  apply not_true_is_false in Hnot.
  unfold create_namespaced_service, mbind, M_bind, emit, gets, set_cluster. simpl.
  rewrite Hnot. eexists. split; [reflexivity|]. split; [reflexivity|].
  unfold service_ips, in_namespace in *. simpl in *.
  rewrite filter_app, (filter_cons _ (ns, _)). cbn [fst].
  rewrite decide_True by done. rewrite filter_nil.
  rewrite fmap_app, filter_app, fmap_app, Hnil.
  rewrite fmap_cons, fmap_nil. cbn [snd].
  rewrite filter_cons, filter_nil.
  cbn [with_cluster_ip svc_metadata]. rewrite decide_True by done.
  reflexivity.
Qed.

Lemma define_service_ips (w : World) (v p : pyval) (ns : pyval) :
  declared (charm w) -> _service_name (charm w) = Ok v ->
  _service_port (charm w) = Ok p -> _namespace (charm w) = Ok ns ->
  exists w',
    _define_service w = (Ok tt, w') /\
    service_ips ns (py_str v +:+ "-service") (cluster w') =
      if bool_decide (py_str v +:+ "-service" ∈ listed_services ns (cluster w))
      then service_ips ns (py_str v +:+ "-service") (cluster w)
      else [assign_ip (cluster w) ns (py_str v +:+ "-service")].
Proof.
  intros Hd Hn Hp Hns.
  destruct (k8s_auth_run w Hd) as (w1 & Hauth & Hsame & Hauthed & Hk & _).
  destruct (same_sources_resolve _ _ Hsame) as (En & Ep & Ens & Eksn & _ & Esvc & _ & _).
  pose proof (get_k8s_service_run _ v p Hn Hp) as Hbody.
  pose proof (k8s_service_name_run _ v Hn) as Hksn.
  match type of Hbody with _ = Ok ?b => set (body := b) in * end.
  unfold _define_service. step Hauth.
  rewrite <- Esvc in Hbody. step (prop_run _ _ _ Hbody).
  rewrite <- Ens in Hns. step (prop_run _ _ _ Hns).
  destruct (list_namespaced_service_run ns w1) as (w2 & Hlist & Hc2 & Hk2 & He2).
  step Hlist.
  rewrite <- Eksn, <- Hc2 in Hksn. step (prop_run _ _ _ Hksn).
  rewrite <- En, <- Hc2 in Hn.
  fold (listed_services ns (cluster w1)).
  rewrite <- Hk, <- Hk2.
  destruct (decide (py_str v +:+ "-service" ∈ listed_services ns (cluster w2)))
    as [Hin|Hnot].
  - rewrite !bool_decide_eq_true_2 by done.
    destruct (patch_namespaced_service_ips (py_str v +:+ "-service") ns body w2
                eq_refl Hin) as (w3 & Hpatch & Hc3 & Hips).
    step Hpatch. rewrite <- Hc3 in Hn. step (prop_run _ _ _ Hn).
    destruct (logger_run INFO
                ("Service updated in namespace " +:+ py_str ns +:+
                 " with name " +:+ py_str v) w3) as (w4 & Hlog & Hc4 & Hk4 & He4).
    rewrite Hlog. exists w4. by rewrite Hk4.
  - rewrite !bool_decide_eq_false_2 by done.
    destruct (create_namespaced_service_ips ns body w2 Hnot)
      as (w3 & Hcreate & Hc3 & Hips).
    step Hcreate. rewrite <- Hc3 in Hn. step (prop_run _ _ _ Hn).
    destruct (logger_run INFO
                ("Service created in namespace " +:+ py_str ns +:+
                 " with name " +:+ py_str v) w3) as (w4 & Hlog & Hc4 & Hk4 & He4).
    rewrite Hlog. exists w4. by rewrite Hk4.
Qed.

Lemma config_changed_run (w : World) (n : string) (p ns : pyval)
    (svc : V1Service) (ing : Ingress) :
  declared (charm w) -> is_leader (charm w) = true ->
  _service_name (charm w) = Ok (PStr n) -> n <> "" ->
  _service_port (charm w) = Ok p -> _namespace (charm w) = Ok ns ->
  _get_k8s_service (charm w) = Ok svc -> _get_k8s_ingress (charm w) = Ok ing ->
  exists wc,
    _on_config_changed w =
      match py_join ", "
              (if bool_decide (n +:+ "-service" ∈ listed_services ns (cluster w))
               then service_ips ns (n +:+ "-service") (cluster w)
               else [assign_ip (cluster w) ns (n +:+ "-service")]) with
      | Ok joined =>
          (Ok tt,
           set_charm
             (set_status (ActiveStatus ("Ingress with service IP(s): " +:+ joined))
                (charm wc)) wc)
      | Err e => (Err e, wc)
      end /\
    effects wc =
      (effects (k8s_auth w).2 ++
       [ ListNamespacedService ns;
         if bool_decide (n +:+ "-service" ∈ listed_services ns (cluster w))
         then PatchNamespacedService (n +:+ "-service") ns svc
         else CreateNamespacedService ns svc;
         ListNamespacedIngress ns;
         if bool_decide (n +:+ "-ingress" ∈ listed_ingresses ns (cluster w))
         then PatchNamespacedIngress (n +:+ "-ingress") ns ing
         else CreateNamespacedIngress ns ing;
         ListNamespacedService ns ])%list /\
    same_sources (charm wc) (charm w) /\
    is_leader (charm wc) = true /\
    authed (charm wc) = true /\
    n +:+ "-service" ∈ listed_services ns (cluster wc) /\
    n +:+ "-ingress" ∈ listed_ingresses ns (cluster wc) /\
    service_ips ns (n +:+ "-service") (cluster wc) =
      (if bool_decide (n +:+ "-service" ∈ listed_services ns (cluster w))
       then service_ips ns (n +:+ "-service") (cluster w)
       else [assign_ip (cluster w) ns (n +:+ "-service")]).
Proof.
  intros Hd Hl Hn Hne Hp Hns Hsvc Hing.
  assert (Htruthy : truthy (PStr n) = true).
  { simpl. apply negb_true_iff. by apply String.eqb_neq. }
  rewrite (config_changed_leader w _ Hl Hn Htruthy).
  (* the service flow *)
  destruct (define_service_run w _ p Hd Hn Hp)
    as (svc1 & ns1 & wa & Hs1 & Hn1 & Hname1 & Hrun1 & He1 & Hsame1 & Ha1 & Hl1 & Hi1).
  assert (svc1 = svc) as -> by congruence. assert (ns1 = ns) as -> by congruence.
  cbn [py_str] in Hname1. rewrite Hname1 in He1, Hl1.
  destruct (define_service_ips w _ p ns Hd Hn Hp Hns) as (wa' & Hrun1' & Hips1).
  assert (wa' = wa) as -> by congruence. cbn [py_str] in Hips1.
  pose proof (define_service_kept w) as Hkept1. rewrite Hrun1 in Hkept1.
  (* the ingress flow *)
  destruct (same_sources_resolve _ _ Hsame1)
    as (En1 & Ep1 & Ens1 & _ & _ & _ & _ & Ed1).
  assert (Hd1 : declared (charm wa)) by (by apply Ed1).
  rewrite <- En1 in Hn. rewrite <- Ep1 in Hp.
  destruct (define_ingress_run wa n p Hd1 Hn Hp)
    as (ing2 & ns2 & wb & Hg2 & Hn2 & Hname2 & Hrun2 & He2 & Hsame2 & Ha2 & Hl2 & Hi2).
  destruct (same_sources_resolve _ _ Hsame1) as (_ & _ & _ & _ & _ & _ & Eing1 & _).
  assert (ing2 = ing) as -> by congruence. assert (ns2 = ns) as -> by congruence.
  rewrite Hname2 in He2, Hl2. rewrite (k8s_auth_again wa Hd1 Ha1) in He2.
  assert (Hli : listed_ingresses ns (cluster wa) = listed_ingresses ns (cluster w)).
  { unfold listed_ingresses. by rewrite Hi1. }
  rewrite Hli in He2.
  pose proof (define_ingress_kept wa) as Hkept2. rewrite Hrun2 in Hkept2.
  (* the report *)
  destruct (same_sources_resolve _ _ Hsame2) as (En2 & _ & Ens2 & _ & _ & _ & _ & Ed2).
  assert (Hd2 : declared (charm wb)) by (by apply Ed2).
  destruct (report_lists_named_services wb Hd2)
    as (ns3 & wc & Hn3 & Hrun3 & He3 & Hk3 & Hc3).
  assert (ns3 = ns) as -> by congruence.
  rewrite (k8s_auth_again wb Hd2 Ha2) in He3, Hc3.
  assert (Hchosen : chosen (charm wb) "service-name" = PStr n).
  { pose proof (service_name_run _ Hd2) as E. rewrite En2, Hn in E. congruence. }
  rewrite Hchosen in Hrun3. cbn [py_str] in Hrun3.
  assert (Hips : service_ips ns (n +:+ "-service") (cluster wb) =
                 service_ips ns (n +:+ "-service") (cluster wa)).
  { unfold service_ips. by rewrite Hi2. }
  rewrite Hips, Hips1 in Hrun3.
  exists wc. split.
  - unfold mbind at 1, M_bind at 1.
    rewrite (bind_ok _ _ _ _ _ Hrun1), (bind_ok _ _ _ _ _ Hrun2),
      (bind_ok _ _ _ _ _ Hrun3).
    unfold mbind, M_bind, try_pure.
    destruct (py_join _ _); reflexivity.
  - rewrite He3, He2, He1, <- !app_assoc. split; [reflexivity|].
    rewrite Hc3. split; [by eapply same_sources_trans|].
    destruct Hkept1 as (_ & _ & _ & Hl1' & _). destruct Hkept2 as (_ & _ & _ & Hl2' & _).
    cbn [snd] in Hl1', Hl2'.
    split; [congruence|]. split; [done|].
    rewrite Hk3. split.
    { unfold listed_services in *. by rewrite Hi2. }
    split; [done|].
    by rewrite Hips, Hips1.
Qed.

Lemma canonical_builds (c : Charm) (n : string) (p : pyval) :
  declared c -> _service_name c = Ok (PStr n) -> _service_port c = Ok p ->
  exists svc ing ns,
    _get_k8s_service c = Ok svc /\ _get_k8s_ingress c = Ok ing /\
    _namespace c = Ok ns.
Proof.
  intros Hd Hn Hp. eexists _, _, _.
  split; [by apply get_k8s_service_run with (v := PStr n)|].
  split; [by apply get_k8s_ingress_run|]. by apply namespace_run.
Qed.

(** X6. The handler itself is idempotent on the leader: once config-changed
    has returned normally, running it again returns normally, issues the two
    listings, two patches and the report's listing and no create, and
    leaves the same status message. *)
Theorem config_changed_twice (w w1 : World) (n : string) (p : pyval) :
  declared (charm w) -> is_leader (charm w) = true ->
  _service_name (charm w) = Ok (PStr n) -> n <> "" ->
  _service_port (charm w) = Ok p ->
  _on_config_changed w = (Ok tt, w1) ->
  exists svc ing ns w2,
    _get_k8s_service (charm w) = Ok svc /\ _get_k8s_ingress (charm w) = Ok ing /\
    _namespace (charm w) = Ok ns /\
    _on_config_changed w1 = (Ok tt, w2) /\
    effects w2 =
      (effects w1 ++
       [ ListNamespacedService ns;
         PatchNamespacedService (n +:+ "-service") ns svc;
         ListNamespacedIngress ns;
         PatchNamespacedIngress (n +:+ "-ingress") ns ing;
         ListNamespacedService ns ])%list /\
    status (charm w2) = status (charm w1).
Proof.
  intros Hd Hl Hn Hne Hp Hrun.
  destruct (canonical_builds _ n p Hd Hn Hp) as (svc & ing & ns & Hsvc & Hing & Hns).
  exists svc, ing, ns.
  destruct (config_changed_run w n p ns svc ing Hd Hl Hn Hne Hp Hns Hsvc Hing)
    as (wc & Hrun1 & _ & Hsame & Hlc & Hac & Hls & Hli & Hips).
  rewrite Hrun in Hrun1. rewrite <- Hips in Hrun1.
  destruct (py_join ", " (service_ips ns (n +:+ "-service") (cluster wc)))
    as [joined|e] eqn:Hjoin; [|discriminate Hrun1].
  injection Hrun1 as ->.
  set (w1 := set_charm
               (set_status (ActiveStatus ("Ingress with service IP(s): " +:+ joined))
                  (charm wc)) wc) in *.
  assert (Hsame1 : same_sources (charm w1) (charm w)) by exact Hsame.
  destruct (same_sources_resolve _ _ Hsame1)
    as (En & Ep & Ens & _ & _ & Esvc & Eing & Ed).
  assert (Hd1 : declared (charm w1)) by (by apply Ed).
  pose proof Hsvc as Hsvc0. pose proof Hing as Hing0. pose proof Hns as Hns0.
  rewrite <- En in Hn. rewrite <- Ep in Hp. rewrite <- Ens in Hns.
  rewrite <- Esvc in Hsvc. rewrite <- Eing in Hing.
  destruct (config_changed_run w1 n p ns svc ing Hd1 Hlc Hn Hne Hp Hns Hsvc Hing)
    as (wc2 & Hrun2 & He2 & _).
  change (cluster w1) with (cluster wc) in Hrun2, He2.
  rewrite (bool_decide_eq_true_2 _ Hls) in Hrun2, He2.
  rewrite (bool_decide_eq_true_2 _ Hli) in He2.
  rewrite Hjoin in Hrun2.
  rewrite (k8s_auth_again w1 Hd1 Hac) in He2.
  eexists. split; [exact Hsvc0|]. split; [exact Hing0|]. split; [exact Hns0|].
  split; [exact Hrun2|]. split; [exact He2|]. reflexivity.
Qed.

Lemma config_changed_twice_witness :
  declared (charm (sample_world web_charm)) /\
  is_leader (charm (sample_world web_charm)) = true /\
  _service_name (charm (sample_world web_charm)) = Ok (PStr "web") /\
  _service_port (charm (sample_world web_charm)) = Ok (PInt 8080) /\
  (_on_config_changed (sample_world web_charm)).1 = Ok tt /\
  exists w2,
    _on_config_changed (_on_config_changed (sample_world web_charm)).2 = (Ok tt, w2) /\
    status (charm w2) = ActiveStatus "Ingress with service IP(s): 10.152.183.7".
Proof.
  split; [exact web_declared|]. split; [reflexivity|].
  split; [vm_compute; reflexivity|]. split; [vm_compute; reflexivity|].
  split; [vm_compute; reflexivity|].
  destruct (config_changed_twice (sample_world web_charm)
              (_on_config_changed (sample_world web_charm)).2 "web" (PInt 8080)
              web_declared)
    as (svc & ing & ns & w2 & _ & _ & _ & Hrun & _ & Hst);
    [reflexivity | vm_compute; reflexivity | discriminate
    | vm_compute; reflexivity | vm_compute; reflexivity |].
  exists w2. split; [exact Hrun|]. rewrite Hst. vm_compute. reflexivity.
Defined.

(** X7. First deployment: when neither resource is listed in the target
    namespace, the leader's config-changed creates the service and the
    ingress (one create each, no patch), lists the services again and
    reports the address the cluster gave the new service in the active
    status. *)
Theorem config_changed_first_deploy (w : World) (n ip : string) (p ns : pyval) :
  declared (charm w) -> is_leader (charm w) = true ->
  _service_name (charm w) = Ok (PStr n) -> n <> "" ->
  _service_port (charm w) = Ok p -> _namespace (charm w) = Ok ns ->
  n +:+ "-service" ∉ listed_services ns (cluster w) ->
  n +:+ "-ingress" ∉ listed_ingresses ns (cluster w) ->
  assign_ip (cluster w) ns (n +:+ "-service") = PStr ip ->
  exists svc ing w1,
    _get_k8s_service (charm w) = Ok svc /\ _get_k8s_ingress (charm w) = Ok ing /\
    _on_config_changed w = (Ok tt, w1) /\
    effects w1 =
      (effects (k8s_auth w).2 ++
       [ ListNamespacedService ns; CreateNamespacedService ns svc;
         ListNamespacedIngress ns; CreateNamespacedIngress ns ing;
         ListNamespacedService ns ])%list /\
    status (charm w1) = ActiveStatus ("Ingress with service IP(s): " +:+ ip).
Proof.
  intros Hd Hl Hn Hne Hp Hns Hs Hi Hip.
  destruct (canonical_builds _ n p Hd Hn Hp) as (svc & ing & ns' & Hsvc & Hing & Hns').
  assert (ns' = ns) as -> by congruence.
  destruct (config_changed_run w n p ns svc ing Hd Hl Hn Hne Hp Hns Hsvc Hing)
    as (wc & Hrun & He & _).
  rewrite (bool_decide_eq_false_2 _ Hs) in Hrun, He.
  rewrite (bool_decide_eq_false_2 _ Hi) in He.
  rewrite Hip in Hrun. simpl in Hrun.
  exists svc, ing. eexists. split; [done|]. split; [done|].
  split; [exact Hrun|]. split; [exact He | reflexivity].
Qed.

Lemma config_changed_first_deploy_witness :
  declared (charm (sample_world web_charm)) /\
  ("web-service" ∉ listed_services (PStr "ingress-model") empty_cluster) /\
  exists w1,
    _on_config_changed (sample_world web_charm) = (Ok tt, w1) /\
    status (charm w1) = ActiveStatus "Ingress with service IP(s): 10.152.183.7".
Proof.
  split; [exact web_declared|].
  assert (Hs : "web-service" ∉ listed_services (PStr "ingress-model") empty_cluster)
    by (vm_compute; apply not_elem_of_nil).
  split; [exact Hs|].
  destruct (config_changed_first_deploy (sample_world web_charm) "web" "10.152.183.7"
              (PInt 8080) (PStr "ingress-model") web_declared)
    as (svc & ing & w1 & _ & _ & Hrun & _ & Hst);
    [ reflexivity | vm_compute; reflexivity | discriminate
    | vm_compute; reflexivity | vm_compute; reflexivity | exact Hs
    | vm_compute; apply not_elem_of_nil | reflexivity |].
  exists w1. split; [exact Hrun | exact Hst].
Defined.

Lemma py_join_non_string (sep : string) (l : list pyval) (v : pyval) :
  v ∈ l -> (forall s, v <> PStr s) -> py_join sep l = Err TypeError.
Proof.
  intros Hin Hv. unfold py_join.
  assert (H : as_strings l = Err TypeError); [|by rewrite H].
  induction l as [|x l IH]; [by apply elem_of_nil in Hin|].
  apply elem_of_cons in Hin as [<-|Hin].
  - destruct v; simpl; try reflexivity. by destruct (Hv s).
  - destruct x; simpl; try reflexivity. by rewrite (IH Hin).
Qed.

(** X8. The reconcile is not transactional: when a service of that name is
    already listed with a cluster address that is not a string (None, as
    for a service without one), config-changed lists the services, patches
    that service, lists the ingresses, patches the ingress if it is listed
    and creates it otherwise, lists the services again, and only then
    raises [TypeError] while joining the addresses; the status is left as
    it was. *)
Theorem config_changed_address_not_string (w : World) (n : string) (p ns v : pyval) :
  declared (charm w) -> is_leader (charm w) = true ->
  _service_name (charm w) = Ok (PStr n) -> n <> "" ->
  _service_port (charm w) = Ok p -> _namespace (charm w) = Ok ns ->
  n +:+ "-service" ∈ listed_services ns (cluster w) ->
  v ∈ service_ips ns (n +:+ "-service") (cluster w) -> (forall s, v <> PStr s) ->
  exists svc ing w1,
    _get_k8s_service (charm w) = Ok svc /\
    _get_k8s_ingress (charm w) = Ok ing /\
    _on_config_changed w = (Err TypeError, w1) /\
    effects w1 =
      (effects (k8s_auth w).2 ++
       [ ListNamespacedService ns;
         PatchNamespacedService (n +:+ "-service") ns svc;
         ListNamespacedIngress ns;
         if bool_decide (n +:+ "-ingress" ∈ listed_ingresses ns (cluster w))
         then PatchNamespacedIngress (n +:+ "-ingress") ns ing
         else CreateNamespacedIngress ns ing;
         ListNamespacedService ns ])%list /\
    status (charm w1) = status (charm w).
Proof.
  intros Hd Hl Hn Hne Hp Hns Hs Hin Hv.
  destruct (canonical_builds _ n p Hd Hn Hp) as (svc & ing & ns' & Hsvc & Hing & Hns').
  assert (ns' = ns) as -> by congruence.
  destruct (config_changed_run w n p ns svc ing Hd Hl Hn Hne Hp Hns Hsvc Hing)
    as (wc & Hrun & He & _).
  rewrite (bool_decide_eq_true_2 _ Hs) in Hrun, He.
  rewrite (py_join_non_string _ _ v Hin Hv) in Hrun.
  exists svc, ing, wc. split; [done|]. split; [done|]. split; [exact Hrun|].
  split; [exact He|].
  pose proof (config_changed_ends_active w) as Hst. by rewrite Hrun in Hst.
Qed.

Lemma config_changed_address_not_string_witness :
  declared (charm addressless_world) /\
  "web-service" ∈ listed_services (PStr "ingress-model") (cluster addressless_world) /\
  PNone ∈ service_ips (PStr "ingress-model") "web-service" (cluster addressless_world) /\
  exists svc ing w1,
    _on_config_changed addressless_world = (Err TypeError, w1) /\
    effects w1 =
      [ FixLp1892255; LoadInclusterConfig;
        ListNamespacedService (PStr "ingress-model");
        PatchNamespacedService "web-service" (PStr "ingress-model") svc;
        ListNamespacedIngress (PStr "ingress-model");
        CreateNamespacedIngress (PStr "ingress-model") ing;
        ListNamespacedService (PStr "ingress-model") ] /\
    status (charm w1) = UnknownStatus.
Proof.
  split; [exact web_declared|].
  assert (Hs : "web-service" ∈
               listed_services (PStr "ingress-model") (cluster addressless_world))
    by (vm_compute; left).
  assert (Hin : PNone ∈ service_ips (PStr "ingress-model") "web-service"
                          (cluster addressless_world))
    by (vm_compute; left).
  split; [exact Hs|]. split; [exact Hin|].
  destruct (config_changed_address_not_string addressless_world "web" (PInt 8080)
              (PStr "ingress-model") PNone web_declared)
    as (svc & ing & w1 & _ & _ & Hrun & He & Hst);
    [ reflexivity | vm_compute; reflexivity | discriminate
    | vm_compute; reflexivity | vm_compute; reflexivity | exact Hs | exact Hin
    | discriminate |].
  exists svc, ing, w1. split; [exact Hrun|]. split; [|exact Hst].
  rewrite He. reflexivity.
Defined.

(** ** The relation-changed handler on the leader *)

Lemma dom_event_payload (bag : gmap string string) :
  dom (event_payload bag) =
  REQUIRED_INGRESS_RELATION_FIELDS ∪ OPTIONAL_INGRESS_RELATION_FIELDS.
Proof.
  apply set_eq. intros k. rewrite elem_of_dom. split.
  - intros [x Hx]. unfold event_payload in Hx.
    apply lookup_set_to_map in Hx as (y & Hy & E); [|by intros ? ? _ _ ?].
    by injection E as -> _.
  - intros Hk. rewrite event_payload_lookup by done. by eexists.
Qed.

Lemma complete_payload_not_missing (bag : gmap string string) :
  complete bag -> missing_required (event_payload bag) = [].
Proof.
  unfold complete, missing_required, required_alphabetical. intros Hall.
  apply Forall_cons in Hall as ([v1 H1] & Hall).
  apply Forall_cons in Hall as ([v2 H2] & Hall).
  apply Forall_cons in Hall as ([v3 H3] & _).
  rewrite !filter_cons, filter_nil.
  rewrite !event_payload_get
    by (unfold REQUIRED_INGRESS_RELATION_FIELDS, OPTIONAL_INGRESS_RELATION_FIELDS;
        set_solver).
  rewrite H1, H2, H3. reflexivity.
Qed.

(** X9. On the leader, a bag with every required field is cached and then
    reconciled: the handler is config-changed run on the world whose cache
    is the new payload.  The cached payload has exactly the seven known
    fields, with [None] for the optional ones the bag lacks; keys of the bag
    outside them are dropped.  It stays the cache whatever the reconcile
    does. *)
Theorem relation_changed_caches_known_fields (bag : gmap string string) (w : World) :
  is_leader (charm w) = true -> complete bag ->
  _on_ingress_relation_changed bag w =
    _on_config_changed (set_charm (set_stored (event_payload bag) (charm w)) w) /\
  ingress_relation_data (charm (_on_ingress_relation_changed bag w).2) =
    event_payload bag /\
  dom (event_payload bag) =
    REQUIRED_INGRESS_RELATION_FIELDS ∪ OPTIONAL_INGRESS_RELATION_FIELDS /\
  forall field,
    field ∈ REQUIRED_INGRESS_RELATION_FIELDS ∪ OPTIONAL_INGRESS_RELATION_FIELDS ->
    event_payload bag !! field = Some (from_option PStr PNone (bag !! field)).
Proof.
  intros Hl Hc.
  assert (Hrun : _on_ingress_relation_changed bag w =
                 _on_config_changed
                   (set_charm (set_stored (event_payload bag) (charm w)) w)).
  { unfold _on_ingress_relation_changed.
    step (gets_run (is_leader ∘ charm) w).
    change ((is_leader ∘ charm) w) with (is_leader (charm w)). rewrite Hl.
    cbn [negb]. unfold mbind at 1, M_bind at 1.
    rewrite ingress_relation_errors_run, (complete_payload_not_missing _ Hc).
    reflexivity. }
  split; [exact Hrun|]. split; [|split; [apply dom_event_payload|]].
  - rewrite Hrun.
    destruct (config_changed_kept
                (set_charm (set_stored (event_payload bag) (charm w)) w))
      as (_ & Hd & _). exact Hd.
  - intros field Hf. by apply event_payload_lookup.
Qed.

Lemma relation_changed_caches_known_fields_witness :
  is_leader (charm leader_world) = true /\
  complete (<[ "unknown-key" := "x" ]> web_bag) /\
  ingress_relation_data
    (charm (_on_ingress_relation_changed
              (<[ "unknown-key" := "x" ]> web_bag) leader_world).2) !! "unknown-key"
    = None /\
  ingress_relation_data
    (charm (_on_ingress_relation_changed
              (<[ "unknown-key" := "x" ]> web_bag) leader_world).2) !! "tls-secret-name"
    = Some PNone.
Proof.
  assert (Hc : complete (<[ "unknown-key" := "x" ]> web_bag))
    by (repeat constructor; eexists; vm_compute; reflexivity).
  split; [reflexivity|]. split; [exact Hc|].
  destruct (relation_changed_caches_known_fields
              (<[ "unknown-key" := "x" ]> web_bag) leader_world eq_refl Hc)
    as (_ & Hcache & _ & _).
  rewrite Hcache. split; vm_compute; reflexivity.
Defined.

(** ** The upgrade handler on bad or missing relations *)

(** X10. On upgrade, when the ingress relation's bag lacks a required
    field, the handler stops there: it sets the blocked status naming the
    missing fields, keeps the cache and everything else of the charm as it
    was, makes no API call and does not look at the relations that
    follow. *)
Theorem upgrade_rejects_incomplete (w : World) (pre post : list (list Relation))
    (relation : Relation) (more : list Relation) (f : string) :
  relations (charm w) = (pre ++ (relation :: more) :: post)%list ->
  Forall not_ingress pre -> rel_name relation = "ingress" ->
  f ∈ REQUIRED_INGRESS_RELATION_FIELDS -> rel_data relation !! f = None ->
  exists w',
    _on_upgrade_charm w = (Ok tt, w') /\
    charm w' =
      set_status
        (BlockedStatus
           ("Missing fields for ingress: " +:+
            join ", " (missing_required (PStr <$> rel_data relation))))
        (charm w) /\
    cluster w' = cluster w /\ effects w' = effects w.
Proof.
  intros Hrel Hpre Hname Hf Hnone.
  unfold _on_upgrade_charm, _get_ingress_relation_data.
  step (gets_run (relations ∘ charm) w).
  change ((relations ∘ charm) w) with (relations (charm w)). rewrite Hrel.
  clear Hrel. revert w. induction Hpre as [|group pre Hg _ IH]; intros w; simpl.
  - destruct (warn_if_multiple_run relation more w) as (w1 & Hw1 & Hk1 & He1 & Hc1).
    step Hw1. rewrite Hname. simpl.
    unfold mbind, M_bind. rewrite ingress_relation_errors_run.
    pose proof (missing_required_nonempty (PStr <$> rel_data relation) f Hf) as Hne.
    destruct (missing_required (PStr <$> rel_data relation)) as [|m ms] eqn:Hm.
    { exfalso. apply Hne; [|reflexivity]. rewrite bag_get, Hnone. reflexivity. }
    eexists. split; [reflexivity|]. simpl. by rewrite Hc1, Hk1, He1.
  - destruct group as [|r0 m0]; [apply IH|].
    destruct (warn_if_multiple_run r0 m0 w) as (w1 & Hw1 & Hk1 & He1 & Hc1).
    step Hw1. simpl in Hg. apply String.eqb_neq in Hg. rewrite Hg.
    destruct (IH w1) as (w' & Hrun & Hc & Hk & He).
    exists w'. split; [exact Hrun|]. by rewrite Hc, Hk, He, Hc1, Hk1, He1.
Qed.

Lemma upgrade_rejects_incomplete_witness :
  "service-port" ∈ REQUIRED_INGRESS_RELATION_FIELDS /\
  portless_bag !! "service-port" = None /\
  exists w',
    _on_upgrade_charm
      (sample_world
         (sample_charm default_config true
            [[ingress_relation portless_bag]; [ingress_relation web_bag]]
            (event_payload api_bag))) = (Ok tt, w') /\
    status (charm w') = BlockedStatus "Missing fields for ingress: service-port" /\
    ingress_relation_data (charm w') = event_payload api_bag.
Proof.
  assert (H1 : "service-port" ∈ REQUIRED_INGRESS_RELATION_FIELDS)
    by (apply elem_of_required; vm_compute; set_solver).
  assert (H2 : portless_bag !! "service-port" = None) by (vm_compute; reflexivity).
  split; [exact H1|]. split; [exact H2|].
  destruct (upgrade_rejects_incomplete
              (sample_world
                 (sample_charm default_config true
                    [[ingress_relation portless_bag]; [ingress_relation web_bag]]
                    (event_payload api_bag)))
              [] [[ingress_relation web_bag]] (ingress_relation portless_bag) []
              "service-port")
    as (w' & Hrun & Hc & _); [reflexivity | constructor | reflexivity | exact H1
                             | exact H2 |].
  exists w'. split; [exact Hrun|]. rewrite Hc. split; [vm_compute|]; reflexivity.
Defined.

(** X11. Without an ingress relation the upgrade handler changes nothing in
    the charm, the cluster or the calls made: in particular a stored
    payload that was reset stays empty until a relation-changed event. *)
Theorem upgrade_without_ingress_relation (w : World) :
  Forall not_ingress (relations (charm w)) ->
  exists w',
    _on_upgrade_charm w = (Ok tt, w') /\
    charm w' = charm w /\ cluster w' = cluster w /\ effects w' = effects w.
Proof.
  intros Hall. unfold _on_upgrade_charm, _get_ingress_relation_data.
  step (gets_run (relations ∘ charm) w).
  change ((relations ∘ charm) w) with (relations (charm w)).
  by apply other_groups_run.
Qed.

Lemma upgrade_without_ingress_relation_witness :
  Forall not_ingress (relations (charm database_world)) /\
  exists w',
    _on_upgrade_charm database_world = (Ok tt, w') /\
    ingress_relation_data (charm w') = ∅.
Proof.
  assert (H : Forall not_ingress (relations (charm database_world)))
    by (repeat constructor; discriminate).
  split; [exact H|].
  destruct (upgrade_without_ingress_relation database_world H) as (w' & Hrun & Hc & _).
  exists w'. split; [exact Hrun|]. rewrite Hc. reflexivity.
Defined.

(** ** The environment workaround *)

Lemma split_on_not_nil (c : ascii) (s : string) : split_on c s <> [].
Proof.
  destruct s as [|a r]; simpl; [discriminate|].
  destruct (Ascii.eqb a c); [discriminate|]. destruct (split_on c r); discriminate.
Qed.

Lemma split_on_length (c : ascii) (s : string) :
  List.length (split_on c s) = S (occurrences c s).
Proof.
  induction s as [|a r IH]; simpl; [reflexivity|].
  destruct (Ascii.eqb a c); simpl; [by rewrite IH|].
  pose proof (split_on_not_nil c r) as Hne.
  destruct (split_on c r); [done|]. exact IH.
Qed.

Lemma split_on_one (c : ascii) (s v : string) : split_on c s = [v] -> s = v.
Proof.
  revert v. induction s as [|a r IH]; intros v; simpl.
  - by intros [= <-].
  - destruct (Ascii.eqb a c).
    + intros [= _ H]. by apply split_on_not_nil in H.
    + pose proof (split_on_not_nil c r) as Hne.
      destruct (split_on c r) as [|x xs]; [done|].
      intros [= <- ->]. by rewrite (IH x).
Qed.

Lemma split_on_two (c : ascii) (s k v : string) :
  split_on c s = [k; v] -> s = k +:+ String c v.
Proof.
  revert k. induction s as [|a r IH]; intros k; simpl; [discriminate|].
  destruct (Ascii.eqb_spec a c) as [->|Hne].
  - intros [= <- H]. by rewrite (split_on_one c r v H).
  - pose proof (split_on_not_nil c r) as Hnil.
    destruct (split_on c r) as [|x xs]; [done|].
    intros [= <- ->]. simpl. by rewrite (IH x).
Qed.

Lemma dict_of_ok (l : list (list string)) :
  Forall (fun x => List.length x = 2%nat) l ->
  forall acc, exists d, dict_of acc l = Ok d.
Proof.
  induction 1 as [|x l Hx _ IH]; intros acc; simpl; [by eexists|].
  destruct x as [|k [|v [|? ?]]]; try discriminate Hx. apply IH.
Qed.

Lemma dict_of_err (l : list (list string)) :
  Exists (fun x => List.length x <> 2%nat) l ->
  forall acc, dict_of acc l = Err ValueError.
Proof.
  induction 1 as [x l Hx|x l _ IH]; intros acc; simpl.
  - by destruct x as [|k [|v [|? ?]]].
  - destruct x as [|k [|v [|? ?]]]; try reflexivity. apply IH.
Qed.

Lemma dict_of_lookup (l : list (list string)) :
  forall acc d k v,
    dict_of acc l = Ok d -> d !! k = Some v -> acc !! k = Some v \/ [k; v] ∈ l.
Proof.
  induction l as [|x l IH]; intros acc d k v; simpl.
  - intros [= <-]. by left.
  - destruct x as [|k' [|v' [|? ?]]]; try discriminate.
    intros Hd Hk. destruct (IH _ _ _ _ Hd Hk) as [Hacc|Hin].
    + destruct (decide (k' = k)) as [->|Hne].
      * rewrite lookup_insert_eq in Hacc. injection Hacc as ->. right. left.
      * rewrite lookup_insert_ne in Hacc by done. by left.
    + right. by right.
Qed.

(** X12. The dictionary handed to [os.environ.update] can be built exactly
    when every entry of the text that mentions KUBERNETES_SERVICE has one
    and only one "=": an entry with none, or with a second "=" in the
    value, makes [dict] raise [ValueError].  Entries that do not mention it
    are never looked at. *)
Theorem kubernetes_service_environ_defined (text : string) :
  (Forall (fun e => occurrences "=" e = 1%nat) (kubernetes_service_entries text) ->
   exists d, kubernetes_service_environ text = Ok d) /\
  (Exists (fun e => occurrences "=" e <> 1%nat) (kubernetes_service_entries text) ->
   kubernetes_service_environ text = Err ValueError).
Proof.
  unfold kubernetes_service_environ. split; intros H.
  - apply dict_of_ok. apply Forall_fmap. eapply Forall_impl; [exact H|].
    intros e He. simpl. by rewrite split_on_length, He.
  - apply dict_of_err. apply Exists_fmap. eapply Exists_impl; [exact H|].
    intros e He. simpl. rewrite split_on_length. congruence.
Qed.

(** X13. Every variable of that dictionary comes from an entry "key=value"
    of the text that mentions KUBERNETES_SERVICE somewhere, in the key or
    in the value; no other entry contributes. *)
Theorem kubernetes_service_environ_sound (text : string) (d : gmap string string)
    (k v : string) :
  kubernetes_service_environ text = Ok d -> d !! k = Some v ->
  k +:+ "=" +:+ v ∈ split_on (ascii_of_N 0) text /\
  contains "KUBERNETES_SERVICE" (k +:+ "=" +:+ v) = true.
Proof.
  unfold kubernetes_service_environ. intros Hd Hk.
  destruct (dict_of_lookup _ _ _ _ _ Hd Hk) as [Hempty|Hin].
  - by rewrite lookup_empty in Hempty.
  - apply list_elem_of_fmap in Hin as (e & He & Hin).
    symmetry in He. apply split_on_two in He. subst e.
    unfold kubernetes_service_entries in Hin.
    apply list_elem_of_filter in Hin as (Hc & Hin). by split.
Qed.

Lemma kubernetes_service_environ_sound_witness :
  kubernetes_service_environ sample_environ =
    Ok (list_to_map [ ("KUBERNETES_SERVICE_HOST", "10.152.183.1");
                      ("KUBERNETES_SERVICE_PORT", "443") ]) /\
  "KUBERNETES_SERVICE_PORT=443" ∈ split_on (ascii_of_N 0) sample_environ.
Proof.
  assert (H : kubernetes_service_environ sample_environ =
              Ok (list_to_map [ ("KUBERNETES_SERVICE_HOST", "10.152.183.1");
                                ("KUBERNETES_SERVICE_PORT", "443") ]))
    by (vm_compute; reflexivity).
  split; [exact H|].
  apply (kubernetes_service_environ_sound sample_environ _
           "KUBERNETES_SERVICE_PORT" "443" H).
  vm_compute. reflexivity.
Defined.

Example kubernetes_service_environ_broken :
  kubernetes_service_environ broken_environ = Err ValueError.
Proof. vm_compute. reflexivity. Qed.

(** ** The two string-valued properties *)

(** X14. The strings returned for max-body-size and session-cookie-max-age
    are empty exactly when the resolved value is falsy, so that testing the
    returned string, as the ingress builder does, is testing the value: an
    integer zero never comes back as "0m" or "0". *)
Theorem size_and_age_strings (c : Charm) :
  declared c ->
  exists size age,
    _max_body_size c = Ok size /\ _session_cookie_max_age c = Ok age /\
    nonempty size = truthy (chosen c "max-body-size") /\
    nonempty age = truthy (chosen c "session-cookie-max-age") /\
    (truthy (chosen c "max-body-size") = true ->
     size = py_str (chosen c "max-body-size") +:+ "m") /\
    (truthy (chosen c "session-cookie-max-age") = true ->
     age = py_str (chosen c "session-cookie-max-age")).
Proof.
  intros Hd. eexists _, _.
  split; [by apply max_body_size_run|].
  split; [by apply session_cookie_max_age_run|].
  destruct (truthy (chosen c "max-body-size")) eqn:Hs;
    destruct (truthy (chosen c "session-cookie-max-age")) eqn:Ha;
    repeat split; try done;
    first [ by apply nonempty_suffix | by apply truthy_str_nonempty ].
Qed.

Lemma size_and_age_strings_witness :
  declared tls_charm /\
  exists size age,
    _max_body_size tls_charm = Ok size /\
    _session_cookie_max_age tls_charm = Ok age /\
    nonempty size = true /\ nonempty age = false.
Proof.
  split; [exact tls_declared|].
  destruct (size_and_age_strings tls_charm tls_declared)
    as (size & age & Hs & Ha & Hn1 & Hn2 & _).
  exists size, age. split; [exact Hs|]. split; [exact Ha|].
  rewrite Hn1, Hn2. split; vm_compute; reflexivity.
Defined.
